(* ===================================================================== *)
(* flash-gateway: a shallow embedding of the capture middleware, the     *)
(* header sanitizers, the guardrail executor, the refusal builder, the   *)
(* proxy handler, the moderation guardrail and the batch log writer,     *)
(* with the properties the specification states about them.              *)
(* ===================================================================== *)

From Stdlib Require Import ZArith QArith_base Ascii String.
From stdpp Require Import gmap strings list fin_maps sorting pretty.

Local Open Scope Z_scope.

(* Go strings and []byte are byte sequences; string(b) and []byte(s) are
   identities on them.  Bodies are kept as lists of bytes, names and header
   values as strings. *)
Abbreviation bytes := (list ascii).

Definition b (s : string) : bytes := list_ascii_of_string s.

(* m[k] on a map[string]bool: false for an absent key *)
Definition lookupBool (m : gmap string bool) (k : string) : bool :=
  default false (m !! k).

(* --------------------------------------------------------------------- *)
(* strings                                                               *)
(* --------------------------------------------------------------------- *)

Module Strings.

Definition mapLetter (lo hi : nat) (shift : nat -> nat) (c : ascii) : ascii :=
  let n := nat_of_ascii c in
  if ((lo <=? n) && (n <=? hi))%nat then ascii_of_nat (shift n) else c.

(* strings.ToLower and strings.ToUpper on ASCII letters; other bytes are
   kept *)
Fixpoint ToLower (s : string) : string :=
  match s with
  | EmptyString => EmptyString
  | String c s' => String (mapLetter 65 90 (fun n => n + 32)%nat c) (ToLower s')
  end.

Fixpoint ToUpper (s : string) : string :=
  match s with
  | EmptyString => EmptyString
  | String c s' => String (mapLetter 97 122 (fun n => n - 32)%nat c) (ToUpper s')
  end.

(* strings.HasPrefix and strings.Contains *)
Fixpoint HasPrefix (s p : string) : bool :=
  match p, s with
  | EmptyString, _ => true
  | String c p', String d s' => Ascii.eqb c d && HasPrefix s' p'
  | String _ _, EmptyString => false
  end.

Fixpoint Contains (s sub : string) : bool :=
  HasPrefix s sub ||
  match s with
  | EmptyString => false
  | String _ s' => Contains s' sub
  end.

(* strings.Join *)
Fixpoint Join (parts : list string) (sep : string) : string :=
  match parts with
  | [] => ""
  | [p] => p
  | p :: rest => p +:+ sep +:+ Join rest sep
  end.

End Strings.

(* --------------------------------------------------------------------- *)
(* io: readers                                                           *)
(* --------------------------------------------------------------------- *)

Module Io.

(* An io.Reader over a finite stream: the bytes still to be delivered and
   the error (other than io.EOF) the stream ends with, if any. *)
Record Reader := mkReader { rd_data : bytes; rd_err : option string }.

(* strings.NewReader / bytes.NewReader wrapped in io.NopCloser *)
Definition NewReader (s : bytes) : Reader := mkReader s None.

(* io.ReadAll: everything up to EOF, or the error the stream ends with *)
Definition ReadAll (r : Reader) : bytes + string :=
  match rd_err r with
  | None => inl (rd_data r)
  | Some e => inr e
  end.

(* buf.ReadFrom(io.LimitReader(r, n)): the limited reader reports EOF once n
   bytes were delivered (at once when n <= 0) without touching r again, so
   the error of r shows only when r ends before the limit. The third
   component is r after the call. *)
Definition ReadLimited (n : Z) (r : Reader) : bytes * option string * Reader :=
  let k := Z.to_nat n in
  if (k <=? length (rd_data r))%nat
  then (take k (rd_data r), None, mkReader (drop k (rd_data r)) (rd_err r))
  else (rd_data r, rd_err r, mkReader [] (rd_err r)).

End Io.

(* --------------------------------------------------------------------- *)
(* net/http: headers, requests, response writers                         *)
(* --------------------------------------------------------------------- *)

Module Http.
Import Io.

(* http.Header; keys are in canonical form, as the server and the client
   produce them and as the gateway's literals are *)
Abbreviation Header := (gmap string (list string)).

Definition hGet (h : Header) (k : string) : string :=
  match h !! k with
  | Some (v :: _) => v
  | _ => ""
  end.

Definition hSet (h : Header) (k v : string) : Header := <[k := [v]]> h.

Definition hAdd (h : Header) (k v : string) : Header :=
  <[k := default [] (h !! k) ++ [v]]> h.

Definition hDel (h : Header) (k : string) : Header := delete k h.

Record Request := mkRequest {
  Method : string;
  URLPath : string;
  r_Header : Header;
  r_Body : option Reader;
  RemoteAddr : string
}.

Definition withBody (r : Request) (body : Reader) : Request :=
  mkRequest (Method r) (URLPath r) (r_Header r) (Some body) (RemoteAddr r).

(* an upstream *http.Response *)
Record Response := mkResponse {
  StatusCode : Z;
  resp_Header : Header;
  resp_Body : Reader
}.

(* The server's http.ResponseWriter: the header map, the status line
   with the headers as they were when it was sent, the data of each
   Write call and the codes of the WriteHeader calls made on it. *)
Record ResponseWriter := mkWriter {
  rw_header : Header;
  rw_wrote : option (Z * Header);
  rw_chunks : list bytes;
  rw_codes : list Z
}.

Definition newWriter : ResponseWriter := mkWriter ∅ None [] [].

Definition rw_body (w : ResponseWriter) : bytes := concat (rw_chunks w).

Definition setHeader (w : ResponseWriter) (k v : string) : ResponseWriter :=
  mkWriter (hSet (rw_header w) k v) (rw_wrote w) (rw_chunks w) (rw_codes w).

Definition addHeader (w : ResponseWriter) (k v : string) : ResponseWriter :=
  mkWriter (hAdd (rw_header w) k v) (rw_wrote w) (rw_chunks w) (rw_codes w).

Definition delHeader (w : ResponseWriter) (k : string) : ResponseWriter :=
  mkWriter (hDel (rw_header w) k) (rw_wrote w) (rw_chunks w) (rw_codes w).

(* the first call sends the status line and the headers; later calls are
   superfluous *)
Definition sendHeader (code : Z) (w : ResponseWriter) : ResponseWriter :=
  mkWriter (rw_header w)
    (match rw_wrote w with Some s => Some s | None => Some (code, rw_header w) end)
    (rw_chunks w) (rw_codes w).

Definition WriteHeader (code : Z) (w : ResponseWriter) : ResponseWriter :=
  let w := sendHeader code w in
  mkWriter (rw_header w) (rw_wrote w) (rw_chunks w) (rw_codes w ++ [code]).

(* Write sends 200 first when no status was sent *)
Definition rwWrite (data : bytes) (w : ResponseWriter) : ResponseWriter :=
  let w := sendHeader 200 w in
  mkWriter (rw_header w) (rw_wrote w) (rw_chunks w ++ [data]) (rw_codes w).

Definition StatusOK : Z := 200.
Definition StatusBadRequest : Z := 400.
Definition StatusNotFound : Z := 404.
Definition StatusMethodNotAllowed : Z := 405.
Definition StatusInternalServerError : Z := 500.
Definition StatusBadGateway : Z := 502.

(* http.Error *)
Definition Error (w : ResponseWriter) (msg : string) (code : Z) : ResponseWriter :=
  let w := delHeader w "Content-Length" in
  let w := setHeader w "Content-Type" "text/plain; charset=utf-8" in
  let w := setHeader w "X-Content-Type-Options" "nosniff" in
  let w := WriteHeader code w in
  rwWrite (b msg ++ [ascii_of_nat 10]) w.

(* what the client has received *)
Definition status (w : ResponseWriter) : option Z := fst <$> rw_wrote w.
Definition sentHeader (w : ResponseWriter) : Header :=
  match rw_wrote w with Some (_, h) => h | None => ∅ end.

(* handlers thread the state of what lies behind them *)
Definition Handler (S : Type) : Type :=
  ResponseWriter -> Request -> S -> ResponseWriter * S.

End Http.

(* --------------------------------------------------------------------- *)
(* encoding/json documents                                               *)
(* --------------------------------------------------------------------- *)

Module Json.

(* The values the gateway puts into map[string]interface{} literals. An
   object keeps its members in the order of the literal. *)
#[local] Unset Elimination Schemes.
Inductive value :=
| JNull
| JBool (v : bool)
| JInt (n : Z)
| JFloat (q : Q)
| JStr (s : string)
| JArr (vs : list value)
| JObj (members : list (string * value)).
#[local] Set Elimination Schemes.

(* member lookup, first match *)
Fixpoint assoc (k : string) (ms : list (string * value)) : option value :=
  match ms with
  | [] => None
  | (k', v) :: ms' => if String.eqb k k' then Some v else assoc k ms'
  end.

Definition field (k : string) (v : value) : option value :=
  match v with
  | JObj ms => assoc k ms
  | _ => None
  end.

Definition index (i : nat) (v : value) : option value :=
  match v with
  | JArr vs => vs !! i
  | _ => None
  end.

(* a path into a document: member names and array positions *)
Inductive Step :=
| Key (k : string)
| Idx (i : nat).

Fixpoint get (path : list Step) (v : value) : option value :=
  match path with
  | [] => Some v
  | Key k :: rest => match field k v with Some v' => get rest v' | None => None end
  | Idx i :: rest => match index i v with Some v' => get rest v' | None => None end
  end.

End Json.

(* --------------------------------------------------------------------- *)
(* internal/storage: models.go                                           *)
(* --------------------------------------------------------------------- *)

Module Storage.

(* interface{} values that occur in a header map: a single string or a
   list of strings *)
Inductive HeaderValue :=
| HStr (s : string)
| HList (l : list string).

#[global] Instance HeaderValue_eq_dec : EqDecision HeaderValue.
Proof. solve_decision. Defined.

Definition REDACTED : string := "[REDACTED]".

(* the literal map[string]bool of SanitizeForLog and NewCaptureMiddleware *)
Definition sensitiveHeaders : gmap string bool :=
  {[ "authorization" := true; "x-api-key" := true; "cookie" := true;
     "x-auth-token" := true; "bearer" := true ]}.

(* SanitizeForLog. A nil map is None. The source names the key lowerKey
   but assigns it the key as it is. *)
Definition SanitizeForLog (headers : option (gmap string HeaderValue))
  : option (gmap string HeaderValue) :=
  match headers with
  | None => None
  | Some hs =>
      Some (map_imap (fun key value =>
              let lowerKey := key in
              if lookupBool sensitiveHeaders lowerKey
              then Some (HStr REDACTED)
              else Some value) hs)
  end.

(* RequestLog; a nil pointer or nil map is None, a uuid is its text, a
   time is a number *)
Record RequestLog := mkRequestLog {
  l_ID : string;
  l_Timestamp : Z;
  l_SessionID : option string;
  l_RequestID : string;
  l_Endpoint : string;
  l_Method : string;
  l_StatusCode : option Z;
  l_LatencyMs : option Z;
  l_Provider : option string;
  l_UserAgent : option string;
  l_RemoteAddr : option string;
  RequestHeaders : option (gmap string HeaderValue);
  RequestBody : option bytes;
  ResponseHeaders : option (gmap string HeaderValue);
  ResponseBody : option bytes;
  l_Error : option string;
  l_Metadata : option (list (string * Json.value));
  l_CreatedAt : Z;
  l_UpdatedAt : Z
}.

(* TruncateBody *)
Definition TruncateBody (body : bytes) (maxLength : Z) : bytes :=
  if (Z.of_nat (length body) <=? maxLength)
  then body
  else take (Z.to_nat maxLength) body ++ b "... [truncated]".

End Storage.

(* --------------------------------------------------------------------- *)
(* internal/middleware: capture.go                                       *)
(* --------------------------------------------------------------------- *)

Module Middleware.
Import Io Storage.

Definition LF : ascii := ascii_of_nat 10.

(* the literal "\n... [TRUNCATED]" *)
Definition truncationMarker : bytes := LF :: b "... [TRUNCATED]".

Record CaptureMiddleware := mkCapture {
  hasWriter : bool;
  maxBodySize : Z;
  c_sensitiveHeaders : gmap string bool;
  skipHealthCheck : bool
}.

(* NewCaptureMiddleware *)
Definition NewCaptureMiddleware (writer : bool) (MaxBodySize : Z)
    (SkipHealthCheck : bool) : CaptureMiddleware :=
  let MaxBodySize := if (MaxBodySize <=? 0) then 6400 * 1024 else MaxBodySize in
  mkCapture writer MaxBodySize sensitiveHeaders SkipHealthCheck.

(* captureHeaders *)
Definition captureHeaders (c : CaptureMiddleware)
    (headers : gmap string (list string)) : gmap string HeaderValue :=
  map_imap (fun key values =>
    let lowerKey := Strings.ToLower key in
    if lookupBool (c_sensitiveHeaders c) lowerKey
    then Some (HStr REDACTED)
    else match values with
         | [v] => Some (HStr v)
         | _ => Some (HList values)
         end) headers.

(* captureBody: the captured string, or the read error *)
Definition captureBody (body : Reader) (maxSize : Z) : bytes + string :=
  let '(buf, err, _) := ReadLimited maxSize body in
  match err with
  | Some e => inr e
  | None =>
      let captured := buf in
      if (maxSize <=? Z.of_nat (length buf))
      then inl (captured ++ truncationMarker)
      else inl captured
  end.

(* what captureBody leaves of the reader it was given *)
Definition drained (body : Reader) (maxSize : Z) : Reader :=
  let '(_, _, rest) := ReadLimited maxSize body in rest.

Definition hasBody (method : string) : bool :=
  String.eqb method "POST" || String.eqb method "PUT" || String.eqb method "PATCH".

(* extractProvider *)
Definition extractProvider (path : string) : string :=
  if Strings.HasPrefix path "/v1/" then "openai"
  else if Strings.Contains path "anthropic" then "anthropic"
  else if Strings.Contains path "messages" then "anthropic"
  else "".

(* the part of s after its last space, and whether s has a space *)
Fixpoint lastField (s : string) : string * bool :=
  match s with
  | EmptyString => (EmptyString, false)
  | String c s' =>
      let '(t, found) := lastField s' in
      if found then (t, true)
      else if Ascii.eqb c " " then (s', true)
      else (String c t, false)
  end.

(* extractSessionID *)
Definition extractSessionID (r : Http.Request) : string :=
  let h := Http.r_Header r in
  if negb (String.eqb (Http.hGet h "X-Session-ID") "")
  then Http.hGet h "X-Session-ID"
  else if negb (String.eqb (Http.hGet h "X-Request-ID") "")
  then Http.hGet h "X-Request-ID"
  else if negb (String.eqb (Http.hGet h "X-Correlation-ID") "")
  then Http.hGet h "X-Correlation-ID"
  else
    let auth := Http.hGet h "Authorization" in
    let '(token, several) := lastField auth in
    if negb (String.eqb auth "") && several
       && (8 <? String.length token)%nat
    then substring (String.length token - 8) 8 token
    else "".

(* what Capture reads from the clock and the uuid source: the arrival
   time, the two ids NewRequestLog draws, the request id and the time
   taken by the wrapped handler in milliseconds *)
Record CaptureEnv := mkCaptureEnv {
  ce_start : Z;
  ce_logID : string;
  ce_requestID : string;
  ce_latencyMs : Z
}.

(* captureResponseWriter.Write, on the capture buffer *)
Definition captureWrite (maxBodySize : Z) (body data : bytes) : bytes :=
  if (Z.of_nat (length body) + Z.of_nat (length data) <=? maxBodySize)
  then body ++ data
  else if (Z.of_nat (length body) <? maxBodySize)
  then
    let remaining := maxBodySize - Z.of_nat (length body) in
    body ++ take (Z.to_nat remaining) data ++ truncationMarker
  else body.

Section Capture.
(* compress/gzip behind decompressGzip *)
Variable gunzip : bytes -> option bytes.
Context {S : Type}.

(* the request side of Capture: the request handed to next, and the
   captured body *)
Definition captureRequest (c : CaptureMiddleware) (r : Http.Request)
  : Http.Request * option bytes :=
  match Http.r_Body r with
  | Some body =>
      if hasBody (Http.Method r)
      then match captureBody body (maxBodySize c) with
           | inl requestBody =>
               (Http.withBody r (NewReader requestBody), Some requestBody)
           | inr _ => (Http.withBody r (drained body (maxBodySize c)), None)
           end
      else (r, None)
  | None => (r, None)
  end.

(* Capture: the wrapped handler; the third component is the log entry
   handed to the asynchronous writer *)
Definition Capture (c : CaptureMiddleware) (env : CaptureEnv)
    (next : Http.Handler S) (w : Http.ResponseWriter) (r : Http.Request) (s : S)
  : Http.ResponseWriter * S * option RequestLog :=
  if negb (hasWriter c) then (next w r s, None)
  else if skipHealthCheck c
          && (String.eqb (Http.URLPath r) "/health"
              || String.eqb (Http.URLPath r) "/status")
  then (next w r s, None)
  else
    let requestHeaders := captureHeaders c (Http.r_Header r) in
    let '(r', requestBody) := captureRequest c r in
    let '(w', s') := next w r' s in
    let codes := drop (length (Http.rw_codes w)) (Http.rw_codes w') in
    let chunks := drop (length (Http.rw_chunks w)) (Http.rw_chunks w') in
    let statusCode := default 200 (last codes) in
    let body := foldl (captureWrite (maxBodySize c)) [] chunks in
    let responseBody :=
      if (0 <? Z.of_nat (length body))
      then
        let contentEncoding := Http.hGet (Http.rw_header w') "Content-Encoding" in
        if Strings.Contains (Strings.ToLower contentEncoding) "gzip"
        then Some (default body (gunzip body))
        else Some body
      else None in
    let provider := extractProvider (Http.URLPath r') in
    let metadata :=
      [("request_size", Json.JInt (Z.of_nat (length (default [] requestBody))));
       ("response_size", Json.JInt (Z.of_nat (length body)));
       ("content_type", Json.JStr (Http.hGet (Http.r_Header r') "Content-Type"))] in
    let sessionID := extractSessionID r in
    (w', s',
     Some (mkRequestLog (ce_logID env) (ce_start env)
             (if String.eqb sessionID "" then None else Some sessionID)
             (ce_requestID env) (Http.URLPath r) (Http.Method r)
             (Some statusCode) (Some (ce_latencyMs env))
             (if String.eqb provider "" then None else Some provider)
             (Some (Http.hGet (Http.r_Header r) "User-Agent"))
             (Some (Http.RemoteAddr r))
             (Some requestHeaders) requestBody
             (Some (captureHeaders c (Http.rw_header w'))) responseBody
             None (Some metadata) (ce_start env) (ce_start env))).

End Capture.

End Middleware.

(* --------------------------------------------------------------------- *)
(* internal/guardrails: types.go                                         *)
(* --------------------------------------------------------------------- *)

Module Guardrails.

Record Result := mkResult {
  Passed : bool;
  Score : option Q;
  Reason : string;
  Metadata : list (string * Json.value);
  ModifiedContent : option bytes
}.

(* The Guardrail interface. Name and Priority are read as fields. The
   first argument of the check tells whether the context it is given is
   already done when the check returns; the answer is a result or an
   error text. *)
Record Guardrail := mkGuardrail {
  Name : string;
  Priority : Z;
  g_Check : bool -> bytes -> Result + string
}.

(* Metric without the random id and the creation time *)
Record Metric := mkMetric {
  GuardrailName : string;
  Layer : string;
  m_Priority : Z;
  StartTime : Z;
  EndTime : Z;
  DurationMs : Z;
  m_Passed : bool;
  m_Score : option Q;
  m_Error : option string;
  m_Metadata : list (string * Json.value);
  OriginalResponse : option bytes;
  OverrideResponse : option bytes;
  ResponseOverridden : bool
}.

Record GuardrailResult := mkGuardrailResult {
  r_Name : string;
  r_Priority : Z;
  r_Result : Result;
  r_Duration : Z
}.

Record ExecutionResult := mkExecutionResult {
  e_Passed : bool;
  FailedGuardrail : string;
  FailureReason : string;
  Results : list (option GuardrailResult)
}.

Record GuardrailFailure := mkFailure {
  f_Name : string;
  f_Priority : Z;
  f_Reason : string
}.

(* ------------------------------------------------------------------- *)
(* executor                                                            *)
(* ------------------------------------------------------------------- *)

Record Executor := mkExecutor {
  inputGuardrails : list Guardrail;
  outputGuardrails : list Guardrail;
  hasMetricsWriter : bool;
  timeout : Z
}.

(* NewExecutor; durations in nanoseconds *)
Definition NewExecutor (InputGuardrails OutputGuardrails : list Guardrail)
    (MetricsWriter : bool) (Timeout : Z) : Executor :=
  let Timeout := if (Timeout <=? 0) then 5 * 1000000000 else Timeout in
  mkExecutor InputGuardrails OutputGuardrails MetricsWriter Timeout.

(* The goroutines of one group interleave. A schedule names the order of
   their two observable steps: a task starts (it reads the clock and
   polls the context), a task's check returns (the rest of the task body
   follows at once); and the deadline of the executor's context may fire
   in between. *)
Inductive Event :=
| EvStart (i : nat)
| EvFinish (i : nat)
| EvDeadline.

Inductive TaskStatus :=
| NotStarted
| InFlight (startTime : Z)
| Skipped        (* returned ctx.Err() before calling the check *)
| Completed.     (* called the check and ran to its return *)

(* one invocation of a guardrail's check, kept for the statements *)
Record Call := mkCall {
  c_Name : string;
  c_Priority : Z;
  c_Content : bytes;
  c_Outcome : Result + string
}.

(* What the executor shares with the outside: the clock, whether the
   deadline context is done, the metrics handed to MetricsWriter.Write
   and the log of check invocations. *)
Record World := mkWorld {
  w_clock : Z;
  w_parentDone : bool;
  w_metrics : list Metric;
  w_calls : list Call
}.

Definition world0 : World := mkWorld 0 false [] [].

Record GroupState := mkGroupState {
  gs_world : World;
  gs_ctxErr : option string;             (* ctx.Err() of the group context *)
  gs_status : list TaskStatus;
  gs_err : option string;                (* the error g.Wait() returns *)
  gs_firstFailure : option GuardrailFailure;
  gs_results : list (option GuardrailResult)
}.

Definition deadlineExceeded : string := "context deadline exceeded".
Definition canceled : string := "context canceled".

Definition tick (w : World) : World :=
  mkWorld (w_clock w + 1) (w_parentDone w) (w_metrics w) (w_calls w).

(* MetricsWriter.Write behind the nil test on e.metricsWriter *)
Definition writeMetric (e : Executor) (m : Metric) (w : World) : World :=
  if hasMetricsWriter e
  then mkWorld (w_clock w) (w_parentDone w) (w_metrics w ++ [m]) (w_calls w)
  else w.

Definition logCall (c : Call) (w : World) : World :=
  mkWorld (w_clock w) (w_parentDone w) (w_metrics w) (w_calls w ++ [c]).

(* a task function returns: errgroup keeps the first error and cancels
   the group context on it *)
Definition taskReturn (i : nat) (final : TaskStatus) (err : option string)
    (st : GroupState) : GroupState :=
  let status := <[i := final]> (gs_status st) in
  match err with
  | None =>
      mkGroupState (gs_world st) (gs_ctxErr st) status (gs_err st)
        (gs_firstFailure st) (gs_results st)
  | Some e =>
      match gs_err st with
      | Some _ =>
          mkGroupState (gs_world st) (gs_ctxErr st) status (gs_err st)
            (gs_firstFailure st) (gs_results st)
      | None =>
          mkGroupState (gs_world st)
            (match gs_ctxErr st with Some c => Some c | None => Some canceled end)
            status (Some e) (gs_firstFailure st) (gs_results st)
      end
  end.

(* the update of firstFailure under failureMu *)
Definition trackFailure (g : Guardrail) (reason : string)
    (ff : option GuardrailFailure) : option GuardrailFailure :=
  match ff with
  | None => Some (mkFailure (Name g) (Priority g) reason)
  | Some f =>
      if (Priority g <? f_Priority f)
      then Some (mkFailure (Name g) (Priority g) reason)
      else Some f
  end.

Definition withWorld (w : World) (st : GroupState) : GroupState :=
  mkGroupState w (gs_ctxErr st) (gs_status st) (gs_err st)
    (gs_firstFailure st) (gs_results st).

(* the task body up to the call of the check *)
Definition taskStart (i : nat) (st : GroupState) : GroupState :=
  let startTime := w_clock (gs_world st) in
  match gs_ctxErr st with
  | Some e => taskReturn i Skipped (Some e) st
  | None =>
      mkGroupState (gs_world st) (gs_ctxErr st)
        (<[i := InFlight startTime]> (gs_status st)) (gs_err st)
        (gs_firstFailure st) (gs_results st)
  end.

(* the metric a task fills in once the check has returned: the error
   branch sets Error and Passed = false, the other branch copies the
   result and, for a failed output guardrail run with both responses,
   the override data *)
Definition taskMetric (layer : string)
    (originalResponse overrideResponse : option bytes) (guardrail : Guardrail)
    (startTime now : Z) (outcome : Result + string) : Metric :=
  let duration := now - startTime in
  match outcome with
  | inr err =>
      mkMetric (Name guardrail) layer (Priority guardrail) startTime now
        duration false None (Some err) [] None None false
  | inl result =>
      let overridden :=
        negb (Passed result) && String.eqb layer "output"
        && bool_decide (is_Some originalResponse)
        && bool_decide (is_Some overrideResponse) in
      mkMetric (Name guardrail) layer (Priority guardrail) startTime now
        duration (Passed result) (Score result) None (Metadata result)
        (if overridden then originalResponse else None)
        (if overridden then overrideResponse else None)
        overridden
  end.

(* the task body from the return of the check on; on each branch the
   metric is written before the failure is tracked or the result stored *)
Definition taskFinish (e : Executor) (layer : string)
    (originalResponse overrideResponse : option bytes) (content : bytes)
    (i : nat) (guardrail : Guardrail) (startTime : Z) (st : GroupState)
  : GroupState :=
  let outcome := g_Check guardrail (bool_decide (is_Some (gs_ctxErr st))) content in
  let w := logCall (mkCall (Name guardrail) (Priority guardrail) content outcome)
             (gs_world st) in
  let now := w_clock w in
  let duration := now - startTime in
  let metric := taskMetric layer originalResponse overrideResponse guardrail
                  startTime now outcome in
  let w := writeMetric e metric w in
  match outcome with
  | inr err =>
      let ff := trackFailure guardrail err (gs_firstFailure st) in
      taskReturn i Completed (Some (Name guardrail +:+ " failed: " +:+ err))
        (mkGroupState w (gs_ctxErr st) (gs_status st) (gs_err st) ff (gs_results st))
  | inl result =>
      if negb (Passed result)
      then
        let ff := trackFailure guardrail (Reason result) (gs_firstFailure st) in
        taskReturn i Completed
          (Some (Name guardrail +:+ " rejected: " +:+ Reason result))
          (mkGroupState w (gs_ctxErr st) (gs_status st) (gs_err st) ff (gs_results st))
      else
        let results :=
          <[i := Some (mkGuardrailResult (Name guardrail) (Priority guardrail)
                         result duration)]> (gs_results st) in
        taskReturn i Completed None
          (mkGroupState w (gs_ctxErr st) (gs_status st) (gs_err st)
             (gs_firstFailure st) results)
  end.

(* one scheduling step; a step that does not apply to the task's status
   leaves the group as it is *)
Definition step (e : Executor) (layer : string)
    (originalResponse overrideResponse : option bytes) (content : bytes)
    (guardrails : list Guardrail) (ev : Event) (st0 : GroupState) : GroupState :=
  let st := withWorld (tick (gs_world st0)) st0 in
  match ev with
  | EvDeadline =>
      let w := gs_world st in
      mkGroupState (mkWorld (w_clock w) true (w_metrics w) (w_calls w))
        (match gs_ctxErr st with Some c => Some c | None => Some deadlineExceeded end)
        (gs_status st) (gs_err st) (gs_firstFailure st) (gs_results st)
  | EvStart i =>
      match gs_status st !! i with
      | Some NotStarted => taskStart i st
      | _ => st0
      end
  | EvFinish i =>
      match gs_status st !! i, guardrails !! i with
      | Some (InFlight startTime), Some guardrail =>
          taskFinish e layer originalResponse overrideResponse content
            i guardrail startTime st
      | _, _ => st0
      end
  end.

(* every task is started and finished in slice order unless the schedule
   did so before *)
Definition completion (n : nat) : list Event :=
  flat_map (fun i => [EvStart i; EvFinish i]) (seq 0 n).

Definition runGroup (e : Executor) (layer : string)
    (originalResponse overrideResponse : option bytes) (content : bytes)
    (guardrails : list Guardrail) (sched : list Event) (w : World) : GroupState :=
  foldl (fun st ev =>
           step e layer originalResponse overrideResponse content guardrails ev st)
    (mkGroupState w
       (if w_parentDone w then Some deadlineExceeded else None)
       (replicate (length guardrails) NotStarted) None None
       (replicate (length guardrails) None))
    (sched ++ completion (length guardrails)).

(* executeGroupParallel: the result, the error (nil on every path) and the
   world after g.Wait() *)
Definition executeGroupParallel (e : Executor) (content : bytes)
    (guardrails : list Guardrail) (layer : string)
    (originalResponse overrideResponse : option bytes)
    (sched : list Event) (w : World)
  : ExecutionResult * option string * World :=
  match guardrails with
  | [] => (mkExecutionResult true "" "" [], None, w)
  | _ =>
      let st := runGroup e layer originalResponse overrideResponse content
                  guardrails sched w in
      let results := gs_results st in
      match gs_err st, gs_firstFailure st with
      | Some _, Some firstFailure =>
          (mkExecutionResult false (f_Name firstFailure) (f_Reason firstFailure)
             results, None, gs_world st)
      | Some err, None =>
          (mkExecutionResult false ""
             ("Guardrail execution failed: " +:+ err) results, None, gs_world st)
      | None, _ =>
          (mkExecutionResult true "" "" results, None, gs_world st)
      end
  end.

(* priorityGroups: guardrails of equal priority, in slice order *)
Definition groupByPriority (guardrails : list Guardrail) : gmap Z (list Guardrail) :=
  foldl (fun groups g =>
           <[Priority g := default [] (groups !! Priority g) ++ [g]]> groups)
    ∅ guardrails.

(* the keys of the map after sort.Ints *)
Definition sortedPriorities (groups : gmap Z (list Guardrail)) : list Z :=
  merge_sort Z.le (elements (dom groups)).

(* the first modification found in a group's results *)
Fixpoint firstModified (results : list (option GuardrailResult)) : option bytes :=
  match results with
  | [] => None
  | Some r :: rest =>
      match ModifiedContent (r_Result r) with
      | Some c => Some c
      | None => firstModified rest
      end
  | None :: rest => firstModified rest
  end.

Definition nextContent (currentContent : bytes)
    (results : list (option GuardrailResult)) : bytes :=
  default currentContent (firstModified results).

(* the loop over the sorted priorities in executeParallel; sched gives
   the schedule of the group of each priority *)
Fixpoint runGroups (e : Executor) (layer : string)
    (originalResponse overrideResponse : option bytes)
    (priorityGroups : gmap Z (list Guardrail)) (sched : Z -> list Event)
    (priorities : list Z) (allResults : list (option GuardrailResult))
    (currentContent : bytes) (w : World)
  : ExecutionResult * option string * World :=
  match priorities with
  | [] => (mkExecutionResult true "" "" allResults, None, w)
  | priority :: rest =>
      let groupGuardrails := default [] (priorityGroups !! priority) in
      let '(groupResult, err, w') :=
        executeGroupParallel e currentContent groupGuardrails layer
          originalResponse overrideResponse (sched priority) w in
      match err with
      | Some err =>
          (mkExecutionResult false "" ("Group execution failed: " +:+ err)
             allResults, None, w')
      | None =>
          if negb (e_Passed groupResult)
          then (mkExecutionResult false (FailedGuardrail groupResult)
                  (FailureReason groupResult)
                  (allResults ++ Results groupResult), None, w')
          else runGroups e layer originalResponse overrideResponse
                 priorityGroups sched rest
                 (allResults ++ Results groupResult)
                 (nextContent currentContent (Results groupResult)) w'
      end
  end.

(* context.WithTimeout on the context of the request, which is taken to
   be live: each call of executeParallel has a deadline of its own *)
Definition freshDeadline (w : World) : World :=
  mkWorld (w_clock w) false (w_metrics w) (w_calls w).

(* executeParallel *)
Definition executeParallel (e : Executor) (content : bytes)
    (guardrails : list Guardrail) (layer : string)
    (originalResponse overrideResponse : option bytes)
    (sched : Z -> list Event) (w : World)
  : ExecutionResult * option string * World :=
  match guardrails with
  | [] => (mkExecutionResult true "" "" [], None, w)
  | _ =>
      let w := freshDeadline w in
      let priorityGroups := groupByPriority guardrails in
      let priorities := sortedPriorities priorityGroups in
      runGroups e layer originalResponse overrideResponse priorityGroups sched
        priorities [] content w
  end.

Definition ExecuteInput (e : Executor) (content : bytes)
    (sched : Z -> list Event) (w : World) :=
  executeParallel e content (inputGuardrails e) "input" None None sched w.

Definition ExecuteOutput (e : Executor) (content : bytes)
    (sched : Z -> list Event) (w : World) :=
  executeParallel e content (outputGuardrails e) "output" None None sched w.

Definition ExecuteOutputWithResponses (e : Executor) (content : bytes)
    (originalResponse overrideResponse : bytes)
    (sched : Z -> list Event) (w : World) :=
  executeParallel e content (outputGuardrails e) "output"
    (Some originalResponse) (Some overrideResponse) sched w.

(* ------------------------------------------------------------------- *)
(* vocabulary of the statements about the executor                     *)
(* ------------------------------------------------------------------- *)

(* a check answered with an error or with a result that did not pass *)
Definition failed (o : Result + string) : bool :=
  match o with
  | inr _ => true
  | inl r => negb (Passed r)
  end.

(* the reason the executor records for such an answer *)
Definition reasonOf (o : Result + string) : string :=
  match o with
  | inr err => err
  | inl r => Reason r
  end.

Definition errorOf (o : Result + string) : option string :=
  match o with
  | inr err => Some err
  | inl _ => None
  end.

Definition finished (s : TaskStatus) : bool :=
  match s with
  | Skipped | Completed => true
  | _ => false
  end.

Definition isCompleted (s : TaskStatus) : bool :=
  match s with
  | Completed => true
  | _ => false
  end.

Definition isSkipped (s : TaskStatus) : bool :=
  match s with
  | Skipped => true
  | _ => false
  end.

Definition countOf (p : TaskStatus -> bool) (l : list TaskStatus) : nat :=
  length (List.filter p l).

(* the metric of a check invocation *)
Definition metricMatches (m : Metric) (c : Call) : Prop :=
  GuardrailName m = c_Name c
  /\ m_Priority m = c_Priority c
  /\ m_Passed m = negb (failed (c_Outcome c))
  /\ m_Error m = errorOf (c_Outcome c)
  /\ DurationMs m = EndTime m - StartTime m.

(* an invocation of one of the guardrails on the content *)
Definition callOf (guardrails : list Guardrail) (content : bytes) (c : Call) : Prop :=
  exists g ctxDone,
    g ∈ guardrails
    /\ c = mkCall (Name g) (Priority g) content (g_Check g ctxDone content).

(* the entry of Results that a passing invocation leaves *)
Definition resultOf (r : GuardrailResult) (c : Call) : Prop :=
  c_Outcome c = inl (r_Result r)
  /\ r_Name r = c_Name c
  /\ r_Priority r = c_Priority c.

Definition failedCall (c : Call) : Prop := failed (c_Outcome c) = true.
Definition passedCall (c : Call) : Prop := failed (c_Outcome c) = false.

(* the failure a group names is that of an invocation that failed *)
Definition names (f : GuardrailFailure) (c : Call) : Prop :=
  failedCall c
  /\ f_Name f = c_Name c
  /\ f_Reason f = reasonOf (c_Outcome c)
  /\ f_Priority f = c_Priority c.

(* a result of the group of priority p *)
Definition inGroup (p : Z) (o : option GuardrailResult) : bool :=
  match o with
  | Some r => r_Priority r =? p
  | None => false
  end.

(* The content the group of priority p is to evaluate: the original
   content, changed in ascending order by the first modification of each
   group of smaller priority. *)
Definition contentFor (content : bytes) (priorities : list Z)
    (results : list (option GuardrailResult)) (p : Z) : bytes :=
  foldl (fun cur q =>
           if (q <? p) then nextContent cur (List.filter (inGroup q) results)
           else cur)
    content priorities.

(* the state a step works on: the clock has advanced *)
Definition ticked (st : GroupState) : GroupState :=
  withWorld (tick (gs_world st)) st.

(* Invariant of a group run, over what the world held before it: the
   tasks that completed are those whose check was invoked, and each
   invocation has its metric when there is a writer. *)
Definition counted (e : Executor) (guardrails : list Guardrail) (content : bytes)
    (metrics0 : list Metric) (calls0 : list Call) (st : GroupState) : Prop :=
  length (gs_status st) = length guardrails
  /\ exists newMetrics newCalls,
       w_metrics (gs_world st) = metrics0 ++ newMetrics
       /\ w_calls (gs_world st) = calls0 ++ newCalls
       /\ length newCalls = countOf isCompleted (gs_status st)
       /\ (if hasMetricsWriter e
           then Forall2 metricMatches newMetrics newCalls
           else newMetrics = [])
       /\ Forall (callOf guardrails content) newCalls.

(* Invariant of a group run: the failure tracked is one of the failed
   invocations, there is one as soon as an invocation failed, and the
   results are those of the invocations that passed. *)
Definition tracked (guardrails : list Guardrail) (calls0 : list Call)
    (st : GroupState) : Prop :=
  length (gs_results st) = length guardrails
  /\ length (gs_status st) = length guardrails
  /\ (is_Some (gs_firstFailure st) -> is_Some (gs_err st))
  /\ exists newCalls,
       w_calls (gs_world st) = calls0 ++ newCalls
       /\ (gs_firstFailure st = None -> Forall passedCall newCalls)
       /\ (forall f, gs_firstFailure st = Some f ->
              exists c, c ∈ newCalls /\ names f c)
       /\ (forall i r, gs_results st !! i = Some (Some r) ->
              gs_status st !! i = Some Completed
              /\ exists c, c ∈ newCalls /\ passedCall c /\ resultOf r c)
       /\ (forall c, c ∈ newCalls -> passedCall c ->
              exists i r, gs_results st !! i = Some (Some r) /\ resultOf r c).

End Guardrails.

(* --------------------------------------------------------------------- *)
(* internal/config and internal/providers                                *)
(* --------------------------------------------------------------------- *)

Module Providers.

Record EndpointConfig := mkEndpointConfig {
  ec_Path : string;
  Methods : list string;
  ec_Headers : gmap string string;
  ec_Timeout : Z
}.

Record ProviderConfig := mkProviderConfig {
  pc_Name : string;
  BaseURL : string;
  Endpoints : list EndpointConfig
}.

(* the Provider interface, as far as the handler calls it *)
Record Provider := mkProvider {
  GetName : string;
  SupportedEndpoints : list string;
  ProxyRequest : string -> Http.Request -> Http.Response + string
}.

(* getEndpointConfig *)
Fixpoint getEndpointConfig (endpoints : list EndpointConfig) (endpoint : string)
  : option EndpointConfig :=
  match endpoints with
  | [] => None
  | ep :: rest =>
      if String.eqb (ec_Path ep) endpoint then Some ep
      else getEndpointConfig rest endpoint
  end.

(* the methods a provider's configuration advertises for an endpoint *)
Definition advertisedMethods (cfg : ProviderConfig) (endpoint : string) : list string :=
  match getEndpointConfig (Endpoints cfg) endpoint with
  | Some ep => Methods ep
  | None => []
  end.

(* openai.New, with the round trip to the upstream as a function *)
Definition New (cfg : ProviderConfig)
    (upstream : string -> Http.Request -> Http.Response + string) : Provider :=
  mkProvider (pc_Name cfg) (ec_Path <$> Endpoints cfg) upstream.

End Providers.

(* --------------------------------------------------------------------- *)
(* internal/handlers: the refusal builder and the proxy handler          *)
(* --------------------------------------------------------------------- *)

Module Handlers.
Import Io Http Guardrails Providers.

(* uuid.New().String()[:8] and time.Now().Unix() at the time of a call *)
Record Env := mkEnv { env_uuid8 : string; env_now : Z }.

Definition blockedMessage : string := "I cannot service this request".

Definition usage : Json.value :=
  Json.JObj [("prompt_tokens", Json.JInt 0);
             ("completion_tokens", Json.JInt 6);
             ("total_tokens", Json.JInt 6)].

(* the document of buildChatCompletionResponse *)
Definition chatCompletionDoc (env : Env) : Json.value :=
  Json.JObj
    [("id", Json.JStr ("chatcmpl-blocked-" +:+ env_uuid8 env));
     ("object", Json.JStr "chat.completion");
     ("created", Json.JInt (env_now env));
     ("model", Json.JStr "gpt-3.5-turbo");
     ("choices", Json.JArr
        [Json.JObj
           [("index", Json.JInt 0);
            ("message", Json.JObj [("role", Json.JStr "assistant");
                                   ("content", Json.JStr "I cannot service this request");
                                   ("refusal", Json.JNull)]);
            ("logprobs", Json.JNull);
            ("finish_reason", Json.JStr "stop")]]);
     ("usage", usage);
     ("system_fingerprint", Json.JStr "fp_guardrail_blocked")].

(* the document of buildLegacyCompletionResponse *)
Definition legacyCompletionDoc (env : Env) : Json.value :=
  Json.JObj
    [("id", Json.JStr ("cmpl-blocked-" +:+ env_uuid8 env));
     ("object", Json.JStr "text_completion");
     ("created", Json.JInt (env_now env));
     ("model", Json.JStr "gpt-3.5-turbo");
     ("choices", Json.JArr
        [Json.JObj
           [("text", Json.JStr "I cannot service this request");
            ("index", Json.JInt 0);
            ("logprobs", Json.JNull);
            ("finish_reason", Json.JStr "stop")]]);
     ("usage", usage)].

(* the document BuildResponse marshals for an endpoint *)
Definition responseDoc (endpoint : string) (env : Env) : Json.value :=
  if String.eqb endpoint "/v1/chat/completions" then chatCompletionDoc env
  else if String.eqb endpoint "/v1/completions" then legacyCompletionDoc env
  else if String.eqb endpoint "/v1/responses" then chatCompletionDoc env
  else chatCompletionDoc env.

Record ProxyHandler := mkProxyHandler {
  providers : gmap string Provider;
  routes : gmap string string;
  guardrailExecutor : option Executor
}.

Definition NewProxyHandler : ProxyHandler := mkProxyHandler ∅ ∅ None.

Definition SetGuardrailExecutor (h : ProxyHandler) (executor : Executor) : ProxyHandler :=
  mkProxyHandler (providers h) (routes h) (Some executor).

Definition RegisterProvider (h : ProxyHandler) (provider : Provider) : ProxyHandler :=
  mkProxyHandler
    (<[GetName provider := provider]> (providers h))
    (foldl (fun rs endpoint => <[endpoint := GetName provider]> rs)
       (routes h) (SupportedEndpoints provider))
    (guardrailExecutor h).

(* isMethodAllowed; the endpoint and the provider are not consulted *)
Definition allowedMethods : list string := ["GET"; "POST"; "PUT"; "DELETE"; "PATCH"].

Definition isMethodAllowed (endpoint method : string) (provider : Provider) : bool :=
  let method := Strings.ToUpper method in
  existsb (fun allowed => String.eqb method allowed) allowedMethods.

Definition corsHeaders : gmap string bool :=
  {[ "Access-Control-Allow-Origin" := true;
     "Access-Control-Allow-Methods" := true;
     "Access-Control-Allow-Headers" := true;
     "Access-Control-Max-Age" := true;
     "Access-Control-Allow-Credentials" := true;
     "Access-Control-Expose-Headers" := true ]}.

(* the two loops that copy the upstream headers to the writer *)
Definition copyHeaders (src : Header) (w : ResponseWriter) : ResponseWriter :=
  map_fold (fun key values w =>
              foldl (fun w value =>
                       if lookupBool corsHeaders key
                       then setHeader w key value
                       else addHeader w key value) w values)
    w src.

(* What lies behind the handler: the executor's world and the requests
   handed to a provider's ProxyRequest, the bodies as ProxyRequest would
   read them. *)
Record Sys := mkSys {
  sys_world : World;
  sys_upstream : list Request
}.

(* the envelope ServeHTTP has returnGuardrailError write for an error of
   the input layer *)
Definition inputErrorEnvelope : Json.value :=
  Json.JObj [("error", Json.JStr "input_guardrails_error");
             ("message", Json.JStr "Failed to execute input guardrails");
             ("status", Json.JStr "blocked");
             ("timestamp", Json.JStr "2024-01-01T00:00:00Z")].

(* the schedules of the executor runs a request may cause *)
Record Schedules := mkSchedules {
  sch_input : Z -> list Event;
  sch_output : Z -> list Event;
  sch_metrics : Z -> list Event
}.

Section Proxy.
(* json.Marshal, and compress/gzip behind decompressGzip *)
Variable json_Marshal : Json.value -> bytes.
Variable gunzip : bytes -> option bytes.

(* BuildResponse; json.Marshal has no error on these documents *)
Definition BuildResponse (endpoint : string) (env : Env) : bytes + string :=
  inl (json_Marshal (responseDoc endpoint env)).

(* returnGuardrailError *)
Definition returnGuardrailError (w : ResponseWriter)
    (errorType message guardrailName : string) (statusCode : Z) : ResponseWriter :=
  let w := setHeader w "Content-Type" "application/json" in
  let w := WriteHeader statusCode w in
  let errorResponse :=
    [("error", Json.JStr errorType); ("message", Json.JStr message)]
    ++ (if String.eqb guardrailName "" then []
        else [("guardrail", Json.JStr guardrailName)])
    ++ [("status", Json.JStr "blocked");
        ("timestamp", Json.JStr "2024-01-01T00:00:00Z")] in
  rwWrite (json_Marshal (Json.JObj errorResponse) ++ [ascii_of_nat 10]) w.

Definition withWorld (s : Sys) (w : World) : Sys := mkSys w (sys_upstream s).

(* the end of ServeHTTP: the upstream response goes to the client *)
Definition writeUpstream (w : ResponseWriter) (resp : Response)
    (originalResponseBody : bytes) : ResponseWriter :=
  let w := copyHeaders (resp_Header resp) w in
  let w := WriteHeader (StatusCode resp) w in
  rwWrite originalResponseBody w.

(* ServeHTTP after ExecuteOutput returned *)
Definition afterOutputGuardrails (executor : Executor) (env : Env)
    (scheds : Schedules) (w : ResponseWriter) (r : Request) (s : Sys)
    (resp : Response) (responseBody originalResponseBody : bytes)
    (out : ExecutionResult * option string * World) : ResponseWriter * Sys :=
  let '(result, err, world) := out in
  let s := withWorld s world in
  match err with
  | Some _ =>
      (returnGuardrailError w "output_guardrails_error"
         "Failed to execute output guardrails" "" StatusInternalServerError, s)
  | None =>
      if negb (e_Passed result)
      then
        match BuildResponse (URLPath r) env with
        | inr _ => (Error w "Internal server error" StatusInternalServerError, s)
        | inl overrideResponse =>
            let '(_, _, world) :=
              ExecuteOutputWithResponses executor responseBody
                originalResponseBody overrideResponse (sch_metrics scheds)
                (sys_world s) in
            let s := withWorld s world in
            let w := copyHeaders (resp_Header resp) w in
            let w := setHeader w "Content-Length"
                       (pretty (length overrideResponse)) in
            let w := setHeader w "Content-Type" "application/json" in
            let w := WriteHeader StatusOK w in
            (rwWrite overrideResponse w, s)
        end
      else (writeUpstream w resp originalResponseBody, s)
  end.

(* ServeHTTP from the call of the provider on *)
Definition proxyStage (h : ProxyHandler) (env : Env) (scheds : Schedules)
    (provider : Provider) (w : ResponseWriter) (r : Request) (s : Sys)
  : ResponseWriter * Sys :=
  let s := mkSys (sys_world s) (sys_upstream s ++ [r]) in
  match ProxyRequest provider (URLPath r) r with
  | inr _ => (Error w "Proxy request failed" StatusBadGateway, s)
  | inl resp =>
      match ReadAll (resp_Body resp) with
      | inr _ => (Error w "Error reading response body" StatusInternalServerError, s)
      | inl responseBody =>
          let originalResponseBody := responseBody in
          let contentEncoding := hGet (resp_Header resp) "Content-Encoding" in
          let responseBody :=
            if Strings.Contains (Strings.ToLower contentEncoding) "gzip"
            then default responseBody (gunzip responseBody)
            else responseBody in
          match guardrailExecutor h with
          | Some executor =>
              if (0 <? Z.of_nat (length responseBody))
              then afterOutputGuardrails executor env scheds w r s resp
                     responseBody originalResponseBody
                     (ExecuteOutput executor responseBody (sch_output scheds)
                        (sys_world s))
              else (writeUpstream w resp originalResponseBody, s)
          | None => (writeUpstream w resp originalResponseBody, s)
          end
      end
  end.

(* ServeHTTP after ExecuteInput returned *)
Definition afterInputGuardrails (h : ProxyHandler) (env : Env)
    (scheds : Schedules) (provider : Provider) (w : ResponseWriter)
    (r : Request) (s : Sys)
    (out : ExecutionResult * option string * World) : ResponseWriter * Sys :=
  let '(result, err, world) := out in
  let s := withWorld s world in
  match err with
  | Some _ =>
      (returnGuardrailError w "input_guardrails_error"
         "Failed to execute input guardrails" "" StatusInternalServerError, s)
  | None =>
      if negb (e_Passed result)
      then
        match BuildResponse (URLPath r) env with
        | inr _ => (Error w "Internal server error" StatusInternalServerError, s)
        | inl overrideResponse =>
            let w := setHeader w "Content-Type" "application/json" in
            let w := WriteHeader StatusOK w in
            (rwWrite overrideResponse w, s)
        end
      else
        let r :=
          match firstModified (Results result) with
          | Some modifiedBody => withBody r (NewReader modifiedBody)
          | None => r
          end in
        proxyStage h env scheds provider w r s
  end.

(* ServeHTTP *)
Definition ServeHTTP (h : ProxyHandler) (env : Env) (scheds : Schedules)
  : Handler Sys := fun w r s =>
  match routes h !! URLPath r with
  | None =>
      (Error w ("Endpoint " +:+ URLPath r +:+ " not found") StatusNotFound, s)
  | Some providerName =>
      match providers h !! providerName with
      | None =>
          (Error w ("Provider " +:+ providerName +:+ " not available")
             StatusInternalServerError, s)
      | Some provider =>
          if negb (isMethodAllowed (URLPath r) (Method r) provider)
          then (Error w ("Method " +:+ Method r +:+ " not allowed for endpoint "
                         +:+ URLPath r) StatusMethodNotAllowed, s)
          else
            let read :=
              match r_Body r with
              | Some body =>
                  if Middleware.hasBody (Method r)
                  then match ReadAll body with
                       | inr e => inr e
                       | inl bodyBytes =>
                           inl (bodyBytes, withBody r (NewReader bodyBytes))
                       end
                  else inl ([], r)
              | None => inl ([], r)
              end in
            match read with
            | inr _ => (Error w "Error reading request body" StatusBadRequest, s)
            | inl (requestBody, r) =>
                match guardrailExecutor h with
                | Some executor =>
                    if (0 <? Z.of_nat (length requestBody))
                    then afterInputGuardrails h env scheds provider w r s
                           (ExecuteInput executor requestBody (sch_input scheds)
                              (sys_world s))
                    else proxyStage h env scheds provider w r s
                | None => proxyStage h env scheds provider w r s
                end
            end
      end
  end.

End Proxy.

End Handlers.

(* --------------------------------------------------------------------- *)
(* internal/guardrails/openai: moderation.go                             *)
(* --------------------------------------------------------------------- *)

Module Moderation.
Import Guardrails.

Record ModerationGuardrail := mkModeration {
  name : string;
  priority : Z;
  apiKey : string;
  blockOnFlag : bool;
  categories : list string
}.

Record ChatMessage := mkChatMessage { Role : string; Content : string }.

Record ModerationResult := mkModerationResult {
  Flagged : bool;
  Categories : gmap string bool;
  CategoryScores : gmap string Q
}.

Record ModerationResponse := mkModerationResponse {
  mr_ID : string;
  mr_Model : string;
  mr_Results : list ModerationResult
}.

(* what httpClient.Do gives: a transport error, or the status code with
   the body as json decodes it into a ModerationResponse (None when the
   decoding fails) *)
Definition HttpOutcome : Type := (Z * option ModerationResponse) + string.

(* containsCategory *)
Definition containsCategory (m : ModerationGuardrail) (category : string) : bool :=
  existsb (fun c => String.eqb c category) (categories m).

(* the last message whose role is user *)
Definition lastUserMessage (messages : list ChatMessage) : option string :=
  Content <$> head (filter (fun msg => Role msg = "user") (reverse messages)).

Definition stringField (k : string) (generic : list (string * Json.value))
  : option string :=
  match Json.assoc k generic with
  | Some (Json.JStr s) => Some s
  | _ => None
  end.

Section Check.
(* json.Unmarshal into ChatCompletionRequest, ResponsesRequest,
   CompletionRequest and map[string]interface{}: the decoded field when
   the error is nil *)
Variable decodeChat : bytes -> option (list ChatMessage).
Variable decodeResponses : bytes -> option string.
Variable decodeCompletion : bytes -> option string.
Variable decodeGeneric : bytes -> option (list (string * Json.value)).
(* the round trip to the moderation endpoint, given whether the context
   is done, the api key and the text to moderate *)
Variable httpDo : bool -> string -> string -> HttpOutcome.

(* extractUserMessage *)
Definition extractUserMessage (content : bytes) : string + string :=
  let generic :=
    match decodeGeneric content with
    | Some generic =>
        match stringField "content" generic with
        | Some c => inl c
        | None =>
            match stringField "input" generic with
            | Some i => inl i
            | None =>
                match stringField "prompt" generic with
                | Some p => inl p
                | None => inr "unable to extract user message from request"
                end
            end
        end
    | None => inr "unable to extract user message from request"
    end in
  let completion :=
    match decodeCompletion content with
    | Some prompt => if String.eqb prompt "" then generic else inl prompt
    | None => generic
    end in
  let responses :=
    match decodeResponses content with
    | Some input => if String.eqb input "" then completion else inl input
    | None => completion
    end in
  match decodeChat content with
  | Some (m :: ms) =>
      match lastUserMessage (m :: ms) with
      | Some c => inl c
      | None => responses
      end
  | _ => responses
  end.

(* callModerationAPI *)
Definition callModerationAPI (m : ModerationGuardrail) (ctxDone : bool)
    (text : string) : ModerationResult + string :=
  if String.eqb (apiKey m) "" then inr "OpenAI API key not configured"
  else
    match httpDo ctxDone (apiKey m) text with
    | inr err => inr ("API request failed: " +:+ err)
    | inl (statusCode, body) =>
        if negb (statusCode =? 200)
        then inr ("API returned status " +:+ pretty statusCode)
        else match body with
             | None => inr "failed to decode response"
             | Some modResp =>
                 match mr_Results modResp with
                 | [] => inr "no results in moderation response"
                 | first :: _ => inl first
                 end
             end
    end.

Definition boolMapDoc (m : gmap string bool) : Json.value :=
  Json.JObj (prod_map id Json.JBool <$> map_to_list m).

Definition scoreMapDoc (m : gmap string Q) : Json.value :=
  Json.JObj (prod_map id Json.JFloat <$> map_to_list m).

(* Check; the error it returns is nil on every path, the second
   component says so *)
Definition Check (m : ModerationGuardrail) (ctxDone : bool) (content : bytes)
  : Result * option string :=
  match extractUserMessage content with
  | inr err =>
      (mkResult true None ("Failed to extract message: " +:+ err)
         [("error", Json.JStr err); ("extraction", Json.JStr "failed")] None,
       None)
  | inl userMessage =>
      if String.eqb userMessage ""
      then (mkResult true None "No user message found to moderate"
              [("extraction", Json.JStr "empty")] None, None)
      else
        match callModerationAPI m ctxDone userMessage with
        | inr err =>
            (mkResult true None ("Moderation API error: " +:+ err)
               [("error", Json.JStr err); ("api_call", Json.JStr "failed");
                ("user_message", Json.JStr userMessage)] None, None)
        | inl moderationResult =>
            let flagged :=
              match categories m with
              | [] => Flagged moderationResult
              | _ => existsb (fun category =>
                                lookupBool (Categories moderationResult) category)
                       (categories m)
              end in
            let passed := negb flagged || negb (blockOnFlag m) in
            let metadata :=
              [("user_message", Json.JStr userMessage);
               ("flagged", Json.JBool (Flagged moderationResult));
               ("categories", boolMapDoc (Categories moderationResult));
               ("category_scores", scoreMapDoc (CategoryScores moderationResult));
               ("api_call", Json.JStr "success")]
              ++ match categories m with
                 | [] => []
                 | _ => [("configured_categories",
                          Json.JArr (Json.JStr <$> categories m));
                         ("configured_flagged", Json.JBool flagged)]
                 end in
            let reason :=
              if flagged
              then
                let violatedCategories :=
                  filter (fun category =>
                            lookupBool (Categories moderationResult) category = true
                            ∧ (categories m = []
                               ∨ containsCategory m category = true))
                    (map_to_list (Categories moderationResult)).*1 in
                "Content flagged for: " +:+ Strings.Join violatedCategories ", "
              else "Content passed moderation" in
            (mkResult passed None reason metadata None, None)
        end
  end.

(* the guardrail as the executor sees it *)
Definition asGuardrail (m : ModerationGuardrail) : Guardrail :=
  mkGuardrail (name m) (priority m)
    (fun ctxDone content =>
       match Check m ctxDone content with
       | (result, None) => inl result
       | (_, Some err) => inr err
       end).

End Check.

End Moderation.

(* --------------------------------------------------------------------- *)
(* internal/storage: writer.go                                           *)
(* --------------------------------------------------------------------- *)

Module Writer.
Import Storage.

(* the arguments of a statement *)
Inductive SqlValue :=
| SqlNull
| SqlStr (s : string)
| SqlBytes (v : bytes)
| SqlInt (n : Z)
| SqlTime (t : Z).

Definition sqlStr (o : option string) : SqlValue :=
  match o with Some s => SqlStr s | None => SqlNull end.
Definition sqlInt (o : option Z) : SqlValue :=
  match o with Some n => SqlInt n | None => SqlNull end.
Definition sqlBytes (o : option bytes) : SqlValue :=
  match o with Some v => SqlBytes v | None => SqlNull end.

(* what reaches the database *)
Inductive DbAction :=
| Begin
| Exec (query : string) (values : list SqlValue)
| Commit
| Rollback.

(* the answers of the database: the error of BeginTx, of ExecContext and
   of Commit, None for nil *)
Record DB := mkDB {
  db_BeginTx : option string;
  db_Exec : string -> list SqlValue -> option string;
  db_Commit : option string
}.

(* a call returns its error, or panics *)
Inductive Outcome :=
| Returned (err : option string)
| Panicked (msg : string).

Definition nilDereference : string :=
  "runtime error: invalid memory address or nil pointer dereference".

(* the text before the placeholders, up to white space *)
Definition insertPrefix : string :=
  "INSERT INTO request_logs (id, timestamp, session_id, request_id, endpoint, method, status_code, latency_ms, provider, user_agent, remote_addr, request_headers, request_body, response_headers, response_body, error, metadata, created_at, updated_at) VALUES ".

(* the row of nineteen placeholders that starts at placeholderStart *)
Definition placeholder (placeholderStart : nat) : string :=
  "(" +:+ Strings.Join ((fun k => "$" +:+ pretty (placeholderStart + k)%nat)
                          <$> seq 0 19) ", " +:+ ")".

Section Save.
(* json.Marshal on a header map and on a metadata map *)
Variable marshalHeaders : option (gmap string HeaderValue) -> bytes.
Variable marshalMetadata : option (list (string * Json.value)) -> bytes.

(* the loop over the logs, from index i on: the placeholders and the
   values, or the panic of the iteration that dereferences a nil
   ResponseBody for the debug line *)
Fixpoint collect (i : nat) (logs : list RequestLog)
    (placeholders : list string) (values : list SqlValue)
  : list string * list SqlValue + string :=
  match logs with
  | [] => inl (placeholders, values)
  | log :: rest =>
      let placeholderStart := (i * 19 + 1)%nat in
      let placeholders := placeholders ++ [placeholder placeholderStart] in
      let reqHeadersJSON := marshalHeaders (RequestHeaders log) in
      let respHeadersJSON := marshalHeaders (ResponseHeaders log) in
      let metadataJSON := marshalMetadata (l_Metadata log) in
      let values :=
        values ++
        [SqlStr (l_ID log); SqlTime (l_Timestamp log); sqlStr (l_SessionID log);
         SqlStr (l_RequestID log); SqlStr (l_Endpoint log); SqlStr (l_Method log);
         sqlInt (l_StatusCode log); sqlInt (l_LatencyMs log);
         sqlStr (l_Provider log); sqlStr (l_UserAgent log);
         sqlStr (l_RemoteAddr log); SqlBytes reqHeadersJSON;
         sqlBytes (RequestBody log); SqlBytes respHeadersJSON;
         sqlBytes (ResponseBody log); sqlStr (l_Error log);
         SqlBytes metadataJSON; SqlTime (l_CreatedAt log);
         SqlTime (l_UpdatedAt log)] in
      match ResponseBody log with
      | None => inr nilDereference
      | Some _ => collect (S i) rest placeholders values
      end
  end.

(* SaveRequestLogsBatch: how the call ends and what it did to the
   database. The deferred function rolls back when err is set. *)
Definition SaveRequestLogsBatch (db : DB) (logs : list RequestLog)
  : Outcome * list DbAction :=
  match logs with
  | [] => (Returned None, [])
  | _ =>
      match db_BeginTx db with
      | Some err =>
          (Returned (Some ("failed to begin transaction: " +:+ err)), [])
      | None =>
          match collect 0 logs [] [] with
          | inr p => (Panicked p, [Begin])
          | inl (placeholders, values) =>
              let query := insertPrefix +:+ Strings.Join placeholders ", " in
              match db_Exec db query values with
              | Some err =>
                  (Returned (Some ("failed to insert logs: " +:+ err)),
                   [Begin; Exec query values; Rollback])
              | None =>
                  match db_Commit db with
                  | Some err =>
                      (Returned (Some ("failed to commit transaction: " +:+ err)),
                       [Begin; Exec query values; Commit; Rollback])
                  | None =>
                      (Returned None, [Begin; Exec query values; Commit])
                  end
              end
          end
      end
  end.

(* SaveRequestLog *)
Definition SaveRequestLog (db : DB) (requestLog : RequestLog) :=
  SaveRequestLogsBatch db [requestLog].

End Save.

End Writer.

(* --------------------------------------------------------------------- *)
(* sample configurations and requests                                    *)
(* --------------------------------------------------------------------- *)

Module Examples.
Import Io Http Guardrails Providers Handlers.

(* the log of a response that wrote no body, as Capture builds it *)
Definition bodylessLog : Storage.RequestLog :=
  Storage.mkRequestLog "6f1c" 1700000000 None "9a2e" "/v1/chat/completions"
    "POST" (Some 200) (Some 12) (Some "openai") (Some "curl/8.0")
    (Some "10.0.0.7:51234") (Some ∅) (Some (b "{}")) (Some ∅) None None
    (Some []) 1700000000 1700000000.

(* a provider whose configuration advertises POST alone for the chat
   endpoint *)
Definition chatConfig : ProviderConfig :=
  mkProviderConfig "openai" "https://api.openai.com"
    [mkEndpointConfig "/v1/chat/completions" ["POST"] ∅ 30].

(* an upstream that answers 200 with a small json body *)
Definition upstreamOK (endpoint : string) (r : Request) : Response + string :=
  inl (mkResponse 200 {["Content-Type" := ["application/json"]]}
         (NewReader (b "{}"))).

Definition chatHandler : ProxyHandler :=
  RegisterProvider NewProxyHandler (New chatConfig upstreamOK).

Definition env0 : Env := mkEnv "1a2b3c4d" 1700000000.

(* every group runs its tasks one after the other, in slice order *)
Definition inOrder : Schedules :=
  mkSchedules (fun _ => []) (fun _ => []) (fun _ => []).

(* the deadline fires before the first task of the input groups starts *)
Definition deadlineFirst : Schedules :=
  mkSchedules (fun _ => [EvDeadline]) (fun _ => []) (fun _ => []).

Definition sys0 : Sys := mkSys world0 [].

Definition request (method : string) (body : option bytes) : Request :=
  mkRequest method "/v1/chat/completions" ∅ (NewReader <$> body) "10.0.0.7:51234".

(* a marshaller that writes the kind of a document only *)
Definition kindOf (v : Json.value) : bytes :=
  match Json.field "object" v, Json.field "error" v with
  | Some (Json.JStr s), _ => b s
  | _, Some (Json.JStr s) => b s
  | _, _ => []
  end.

Definition noGunzip (data : bytes) : option bytes := None.

(* a guardrail that lets everything pass and one that blocks everything *)
Definition allow : Guardrail :=
  mkGuardrail "allow" 1 (fun _ _ => inl (mkResult true None "ok" [] None)).

Definition block : Guardrail :=
  mkGuardrail "block" 1 (fun _ _ => inl (mkResult false None "blocked" [] None)).

Definition twoGuardrails : Executor := NewExecutor [block; allow] [] true 0.

(* three groups: the second one blocks *)
Definition first : Guardrail :=
  mkGuardrail "first" 1
    (fun _ _ => inl (mkResult true None "ok" [] (Some (b "rewritten")))).

Definition second : Guardrail :=
  mkGuardrail "second" 2
    (fun _ content =>
       inl (mkResult (negb (bool_decide (content = b "rewritten"))) None
              "saw the rewritten content" [] None)).

Definition third : Guardrail :=
  mkGuardrail "third" 3 (fun _ _ => inl (mkResult true None "ok" [] None)).

Definition threeGroups : Executor := NewExecutor [third; second; first] [] true 0.

Definition oneGuardrail : Executor := NewExecutor [allow] [] true 0.

Definition guardedHandler : ProxyHandler :=
  SetGuardrailExecutor chatHandler oneGuardrail.

(* a capture middleware with a cap of four bytes *)
Definition capture4 : Middleware.CaptureMiddleware :=
  Middleware.NewCaptureMiddleware true 4 true.

Definition captureEnv0 : Middleware.CaptureEnv :=
  Middleware.mkCaptureEnv 1700000000 "6f1c" "9a2e" 12.

End Examples.

(* ===================================================================== *)
(* Properties                                                            *)
(* ===================================================================== *)

(* --------------------------------------------------------------------- *)
(* body capture                                                          *)
(* --------------------------------------------------------------------- *)

Section BodyCapture.
Import Io Middleware.

Lemma truncationMarker_length : length truncationMarker = 16%nat.
Proof. reflexivity. Qed.

(* a body shorter than the cap is captured as it is *)
Lemma captureBody_below (s : bytes) (maxSize : Z) :
  Z.of_nat (length s) < maxSize ->
  captureBody (NewReader s) maxSize = inl s.
Proof.
  intros Hlt. unfold captureBody, ReadLimited. simpl.
  destruct (Nat.leb_spec (Z.to_nat maxSize) (length s)) as [Hle | Hgt]; [lia |].
  simpl. destruct (Z.leb_spec maxSize (Z.of_nat (length s))); [lia | done].
Qed.

(* from the cap on, the capture is the first maxSize bytes and the marker *)
Lemma captureBody_from_cap (s : bytes) (err : option string) (maxSize : Z) :
  maxSize <= Z.of_nat (length s) ->
  captureBody (mkReader s err) maxSize
  = inl (take (Z.to_nat maxSize) s ++ truncationMarker).
Proof.
  intros Hle. unfold captureBody, ReadLimited. simpl.
  destruct (Nat.leb_spec (Z.to_nat maxSize) (length s)) as [Hk | Hk]; [| lia].
  rewrite length_take.
  destruct (Z.leb_spec maxSize (Z.of_nat (Z.to_nat maxSize `min` length s)));
    [done | lia].
Qed.

(* a body of exactly maxSize bytes gets the marker as well *)
Lemma captureBody_exactly_cap (s : bytes) (maxSize : Z) :
  Z.of_nat (length s) = maxSize ->
  captureBody (NewReader s) maxSize = inl (s ++ truncationMarker).
Proof.
  intros Heq. unfold NewReader. rewrite captureBody_from_cap by lia.
  rewrite take_ge by lia. done.
Qed.

(* beyond the cap the capture ends with the marker and is at most
   maxSize + 16 bytes long *)
Lemma captureBody_above (s : bytes) (maxSize : Z) :
  0 <= maxSize < Z.of_nat (length s) ->
  exists out,
    captureBody (NewReader s) maxSize = inl out
    /\ truncationMarker `suffix_of` out
    /\ Z.of_nat (length out) = maxSize + Z.of_nat (length truncationMarker).
Proof.
  intros [H0 Hlt]. eexists. split; [apply captureBody_from_cap; lia |].
  split; [by apply suffix_app_r |].
  rewrite length_app, length_take. lia.
Qed.

(* the response side and TruncateBody keep a body of exactly the cap *)
Lemma captureWrite_exactly_cap (data : bytes) (maxBodySize : Z) :
  Z.of_nat (length data) = maxBodySize ->
  captureWrite maxBodySize [] data = data.
Proof.
  intros Heq. unfold captureWrite. simpl.
  destruct (Z.leb_spec (Z.of_nat 0 + Z.of_nat (length data)) maxBodySize);
    [done | lia].
Qed.

Lemma TruncateBody_exactly_cap (body : bytes) (maxLength : Z) :
  Z.of_nat (length body) = maxLength ->
  Storage.TruncateBody body maxLength = body.
Proof.
  intros Heq. unfold Storage.TruncateBody.
  destruct (Z.leb_spec (Z.of_nat (length body)) maxLength); [done | lia].
Qed.

(** C2: the captured body is claimed to equal the input whenever the input
    is at most the cap, a body of exactly the cap getting no marker. Here
    captureBody is run on the four bytes "abcd" with a cap of four: the
    capture is "abcd" followed by the truncation marker, so it differs from
    the input although nothing was cut. *)
Theorem captureBody_at_cap_appends_marker :
  captureBody (NewReader (b "abcd")) 4 = inl (b "abcd" ++ truncationMarker)
  /\ b "abcd" ++ truncationMarker <> b "abcd"
  /\ Z.of_nat (length (b "abcd")) <= 4.
Proof.
  split; [reflexivity |]. split; [discriminate | simpl; lia].
Qed.

(* the request Capture hands on carries the captured body *)
Lemma captureRequest_over_cap (c : CaptureMiddleware) (r : Http.Request)
    (s : bytes) (err : option string) :
  Http.r_Body r = Some (mkReader s err) ->
  hasBody (Http.Method r) = true ->
  maxBodySize c <= Z.of_nat (length s) ->
  captureRequest c r
  = (Http.withBody r
       (NewReader (take (Z.to_nat (maxBodySize c)) s ++ truncationMarker)),
     Some (take (Z.to_nat (maxBodySize c)) s ++ truncationMarker)).
Proof.
  intros Hb Hm Hle. unfold captureRequest. rewrite Hb, Hm.
  by rewrite captureBody_from_cap.
Qed.

End BodyCapture.

(* --------------------------------------------------------------------- *)
(* header sanitization                                                   *)
(* --------------------------------------------------------------------- *)

Section Sanitize.
Import Storage Middleware.

Lemma sensitive_names (k : string) :
  lookupBool sensitiveHeaders k = true ->
  k ∈ ["authorization"; "x-api-key"; "cookie"; "x-auth-token"; "bearer"].
Proof.
  unfold lookupBool, sensitiveHeaders.
  repeat (rewrite lookup_insert; case_decide; [subst; set_solver |]).
  rewrite lookup_singleton. case_decide; [subst; set_solver | done].
Qed.

Lemma sensitive_lower (k : string) :
  lookupBool sensitiveHeaders k = true -> Strings.ToLower k = k.
Proof.
  intros H%sensitive_names.
  repeat (apply elem_of_cons in H as [-> | H]; [reflexivity |]).
  by apply elem_of_nil in H.
Qed.

(* captureHeaders redacts a sensitive name in any letter case and keeps
   the other headers *)
Lemma captureHeaders_redacts (c : CaptureMiddleware)
    (headers : gmap string (list string)) (key : string) (values : list string) :
  headers !! key = Some values ->
  lookupBool (c_sensitiveHeaders c) (Strings.ToLower key) = true ->
  captureHeaders c headers !! key = Some (HStr REDACTED).
Proof.
  intros Hk Hs. unfold captureHeaders.
  rewrite map_lookup_imap, Hk. simpl. by rewrite Hs.
Qed.

Lemma captureHeaders_keeps (c : CaptureMiddleware)
    (headers : gmap string (list string)) (key : string) (values : list string) :
  headers !! key = Some values ->
  lookupBool (c_sensitiveHeaders c) (Strings.ToLower key) = false ->
  captureHeaders c headers !! key
  = Some (match values with [v] => HStr v | _ => HList values end).
Proof.
  intros Hk Hs. unfold captureHeaders.
  rewrite map_lookup_imap, Hk. simpl. rewrite Hs. by destruct values as [| ? []].
Qed.

(* SanitizeForLog looks the key up as it is spelled *)
Lemma SanitizeForLog_lookup (hs : gmap string HeaderValue) (key : string) :
  (default ∅ (SanitizeForLog (Some hs))) !! key
  = (fun value => if lookupBool sensitiveHeaders key
                  then HStr REDACTED else value) <$> hs !! key.
Proof.
  simpl. rewrite map_lookup_imap. destruct (hs !! key); simpl; [| done].
  by destruct (lookupBool sensitiveHeaders key).
Qed.

(* sanitize after sanitize is sanitize *)
Lemma SanitizeForLog_idempotent (headers : option (gmap string HeaderValue)) :
  SanitizeForLog (SanitizeForLog headers) = SanitizeForLog headers.
Proof.
  destruct headers as [hs |]; [| done]. simpl. f_equal.
  apply map_eq. intros key. rewrite !map_lookup_imap.
  destruct (hs !! key) as [value |]; simpl; [| done].
  destruct (lookupBool sensitiveHeaders key) eqn:Hs; simpl; by rewrite ?Hs.
Qed.

(* headers captured by the middleware are a fixed point of SanitizeForLog *)
Lemma SanitizeForLog_captureHeaders (c : CaptureMiddleware)
    (headers : gmap string (list string)) :
  c_sensitiveHeaders c = sensitiveHeaders ->
  SanitizeForLog (Some (captureHeaders c headers))
  = Some (captureHeaders c headers).
Proof.
  intros Hc. simpl. f_equal. apply map_eq. intros key.
  unfold captureHeaders. rewrite !map_lookup_imap, Hc.
  destruct (headers !! key) as [values |]; simpl; [| done].
  destruct (lookupBool sensitiveHeaders key) eqn:Hs.
  - rewrite (sensitive_lower _ Hs), Hs. simpl. by rewrite ?Hs.
  - destruct (lookupBool sensitiveHeaders (Strings.ToLower key)); simpl;
      [by rewrite ?Hs |].
    destruct values as [| ? []]; simpl; by rewrite ?Hs.
Qed.

(** C8: header sanitization is claimed to replace the values of the
    sensitive names case-insensitively. SanitizeForLog is run on a map whose
    only key is "Authorization", spelled as clients send it: the value comes
    back as it went in, because the key is looked up without being
    lower-cased; captureHeaders, on the same header, puts the sentinel. *)
Theorem SanitizeForLog_keeps_capitalised_authorization :
  SanitizeForLog (Some {["Authorization" := HStr "Bearer sk-live"]})
  = Some {["Authorization" := HStr "Bearer sk-live"]}
  /\ Strings.ToLower "Authorization" = "authorization"
  /\ captureHeaders (NewCaptureMiddleware true 0 true)
       {["Authorization" := ["Bearer sk-live"]]}
     = {["Authorization" := HStr REDACTED]}.
Proof. repeat split; vm_compute; reflexivity. Qed.

End Sanitize.

(* --------------------------------------------------------------------- *)
(* the batch writer                                                      *)
(* --------------------------------------------------------------------- *)

Section BatchWriter.
Import Storage Writer.
Variable marshalHeaders : option (gmap string HeaderValue) -> bytes.
Variable marshalMetadata : option (list (string * Json.value)) -> bytes.

(* the loop panics exactly when some log has no response body *)
Lemma collect_panics (logs : list RequestLog) (i : nat)
    (placeholders : list string) (values : list SqlValue) :
  (exists log, log ∈ logs /\ ResponseBody log = None) ->
  collect marshalHeaders marshalMetadata i logs placeholders values
  = inr nilDereference.
Proof.
  revert i placeholders values.
  induction logs as [| log rest IH]; intros i placeholders values [l [Hin Hnil]].
  - by apply elem_of_nil in Hin.
  - simpl. destruct (ResponseBody log) eqn:Hb; [| done].
    apply IH. apply elem_of_cons in Hin as [-> | Hin]; [congruence | eauto].
Qed.

Lemma collect_returns (logs : list RequestLog) (i : nat)
    (placeholders : list string) (values : list SqlValue) :
  (forall log, log ∈ logs -> is_Some (ResponseBody log)) ->
  exists out,
    collect marshalHeaders marshalMetadata i logs placeholders values = inl out.
Proof.
  revert i placeholders values.
  induction logs as [| log rest IH]; intros i placeholders values Hall.
  - simpl. eauto.
  - simpl. destruct (Hall log) as [body Hb]; [set_solver |]. rewrite Hb.
    apply IH. intros l Hl. apply Hall. set_solver.
Qed.

(* with a response body in every log the call returns *)
Lemma SaveRequestLogsBatch_returns (db : DB) (logs : list RequestLog) :
  (forall log, log ∈ logs -> is_Some (ResponseBody log)) ->
  exists err, (SaveRequestLogsBatch marshalHeaders marshalMetadata db logs).1
              = Returned err.
Proof.
  intros Hall. unfold SaveRequestLogsBatch.
  destruct logs as [| log rest]; [simpl; eauto |].
  destruct (db_BeginTx db); [simpl; eauto |].
  destruct (collect_returns (log :: rest) 0 [] [] Hall) as [[ps vs] ->].
  destruct (db_Exec db _ _); [simpl; eauto |].
  destruct (db_Commit db); simpl; eauto.
Qed.

(* with a log that has none, and a transaction begun, it panics and
   leaves the transaction open *)
Lemma SaveRequestLogsBatch_panics (db : DB) (logs : list RequestLog) :
  db_BeginTx db = None ->
  (exists log, log ∈ logs /\ ResponseBody log = None) ->
  SaveRequestLogsBatch marshalHeaders marshalMetadata db logs
  = (Panicked nilDereference, [Begin]).
Proof.
  intros Hb Hex. unfold SaveRequestLogsBatch.
  destruct logs as [| log rest].
  - destruct Hex as [l [Hin _]]. by apply elem_of_nil in Hin.
  - rewrite Hb. by rewrite (collect_panics _ 0 [] [] Hex).
Qed.

End BatchWriter.

(** C10: SaveRequestLogsBatch is claimed never to panic, also on logs
    whose ResponseBody is nil. Run on the batch of the one log of a response
    that wrote no body, with
    a database that accepts everything, the call panics on the nil
    dereference of the debug line, after the transaction was begun and
    before anything is inserted. *)
Theorem SaveRequestLogsBatch_nil_body_panics :
  Writer.SaveRequestLogsBatch (fun _ => []) (fun _ => [])
    (Writer.mkDB None (fun _ _ => None) None) [Examples.bodylessLog]
  = (Writer.Panicked Writer.nilDereference, [Writer.Begin]).
Proof. reflexivity. Qed.

(* --------------------------------------------------------------------- *)
(* the moderation guardrail                                              *)
(* --------------------------------------------------------------------- *)

Section ModerationFailOpen.
Import Guardrails Moderation.
Variable decodeChat : bytes -> option (list ChatMessage).
Variable decodeResponses : bytes -> option string.
Variable decodeCompletion : bytes -> option string.
Variable decodeGeneric : bytes -> option (list (string * Json.value)).
Variable httpDo : bool -> string -> string -> HttpOutcome.

Local Abbreviation extract :=
  (extractUserMessage decodeChat decodeResponses decodeCompletion decodeGeneric).
Local Abbreviation check :=
  (Check decodeChat decodeResponses decodeCompletion decodeGeneric httpDo).

(* the error Check returns is nil *)
Lemma Check_no_error (m : ModerationGuardrail) (ctxDone : bool) (content : bytes) :
  (check m ctxDone content).2 = None.
Proof.
  unfold Check. destruct (extract content) as [userMessage | err]; [| done].
  destruct (String.eqb userMessage ""); [done |].
  by destruct (callModerationAPI httpDo m ctxDone userMessage).
Qed.

(* every failure of the call to the moderation endpoint is an error of
   callModerationAPI: no key, a transport error, a status other than 200,
   a body that does not decode, an empty result list *)
Lemma callModerationAPI_failures (m : ModerationGuardrail) (ctxDone : bool)
    (text : string) :
  apiKey m = ""
  \/ (exists err, httpDo ctxDone (apiKey m) text = inr err)
  \/ (exists code body, httpDo ctxDone (apiKey m) text = inl (code, body)
                        /\ code <> 200)
  \/ (exists code, httpDo ctxDone (apiKey m) text = inl (code, None))
  \/ (exists code resp, httpDo ctxDone (apiKey m) text = inl (code, Some resp)
                        /\ mr_Results resp = []) ->
  exists err, callModerationAPI httpDo m ctxDone text = inr err.
Proof.
  unfold callModerationAPI.
  intros [Hk | [[err He] | [(code & body & He & Hc) | [[code He]
         | (code & resp & He & Hr)]]]].
  - rewrite Hk. simpl. eauto.
  - destruct (String.eqb (apiKey m) ""); [eauto |]. rewrite He. eauto.
  - destruct (String.eqb (apiKey m) ""); [eauto |]. rewrite He.
    destruct (Z.eqb_spec code 200); [done |]. simpl. eauto.
  - destruct (String.eqb (apiKey m) ""); [eauto |]. rewrite He.
    destruct (negb (code =? 200)); eauto.
  - destruct (String.eqb (apiKey m) ""); [eauto |]. rewrite He.
    destruct (negb (code =? 200)); [eauto |]. rewrite Hr. eauto.
Qed.


(* as the executor sees it, the guardrail never answers with an error *)
Lemma moderation_guardrail_no_error (m : ModerationGuardrail) (ctxDone : bool)
    (content : bytes) :
  exists result,
    g_Check (asGuardrail decodeChat decodeResponses decodeCompletion
               decodeGeneric httpDo m) ctxDone content = inl result.
Proof.
  simpl. pose proof (Check_no_error m ctxDone content) as H.
  destruct (check m ctxDone content) as [result err]. simpl in H. subst. eauto.
Qed.

End ModerationFailOpen.


(* --------------------------------------------------------------------- *)
(* the proxy handler                                                     *)
(* --------------------------------------------------------------------- *)

Section ProxyHandler.
Import Io Http Guardrails Providers Handlers.
Variable json_Marshal : Json.value -> bytes.
Variable gunzip : bytes -> option bytes.

Local Abbreviation serve := (ServeHTTP json_Marshal gunzip).

Lemma isMethodAllowed_spec (endpoint method : string) (provider : Provider) :
  isMethodAllowed endpoint method provider = true
  <-> Strings.ToUpper method ∈ allowedMethods.
Proof.
  unfold isMethodAllowed, allowedMethods. simpl.
  destruct (String.eqb_spec (Strings.ToUpper method) "GET") as [-> | ?];
    [split; [set_solver | done] |].
  destruct (String.eqb_spec (Strings.ToUpper method) "POST") as [-> | ?];
    [split; [set_solver | done] |].
  destruct (String.eqb_spec (Strings.ToUpper method) "PUT") as [-> | ?];
    [split; [set_solver | done] |].
  destruct (String.eqb_spec (Strings.ToUpper method) "DELETE") as [-> | ?];
    [split; [set_solver | done] |].
  destruct (String.eqb_spec (Strings.ToUpper method) "PATCH") as [-> | ?];
    [split; [set_solver | done] |].
  simpl. split; [done |]. intros H.
  repeat (apply elem_of_cons in H as [? | H]; [done |]).
  by apply elem_of_nil in H.
Qed.

(* http.Error on a writer that has sent nothing: the status is the code *)
Lemma Error_status (w : ResponseWriter) (msg : string) (code : Z) :
  rw_wrote w = None -> status (Error w msg code) = Some code.
Proof. intros Hw. unfold status, Error. simpl. by rewrite Hw. Qed.

(* copying the upstream headers sends nothing *)
Lemma copyHeaders_wrote (src : Header) (w : ResponseWriter) :
  rw_wrote (copyHeaders src w) = rw_wrote w
  /\ rw_chunks (copyHeaders src w) = rw_chunks w
  /\ rw_codes (copyHeaders src w) = rw_codes w.
Proof.
  unfold copyHeaders.
  apply (map_fold_weak_ind (fun (r : ResponseWriter) (_ : Header) =>
           rw_wrote r = rw_wrote w /\ rw_chunks r = rw_chunks w
           /\ rw_codes r = rw_codes w)); [done |].
  intros key values _ r _ IH. revert r IH.
  induction values as [| value rest IHv]; intros r IH; [done |].
  simpl. apply IHv. by destruct (lookupBool corsHeaders key).
Qed.

(** C3, as the code has it: for every registered endpoint, a request
    whose method, in upper case, is none of GET, POST, PUT, DELETE and PATCH
    is answered 405 and nothing is handed to a provider. The methods the
    provider's configuration advertises for the endpoint play no part. *)
Theorem method_outside_fixed_list_rejected (h : ProxyHandler) (env : Env)
    (scheds : Schedules) (w : ResponseWriter) (r : Request) (s : Sys)
    (providerName : string) (provider : Provider) :
  routes h !! URLPath r = Some providerName ->
  providers h !! providerName = Some provider ->
  Strings.ToUpper (Method r) ∉ allowedMethods ->
  rw_wrote w = None ->
  status (serve h env scheds w r s).1 = Some StatusMethodNotAllowed
  /\ (serve h env scheds w r s).2 = s.
Proof.
  intros Hr Hp Hm Hw. unfold ServeHTTP. rewrite Hr, Hp.
  destruct (isMethodAllowed (URLPath r) (Method r) provider) eqn:Ha.
  - by apply isMethodAllowed_spec in Ha.
  - simpl. split; [by apply Error_status | done].
Qed.

Lemma chat_shape (env : Env) :
  Json.field "object" (chatCompletionDoc env) = Some (Json.JStr "chat.completion")
  /\ Json.get [Json.Key "choices"; Json.Idx 0; Json.Key "message";
               Json.Key "content"] (chatCompletionDoc env)
     = Some (Json.JStr blockedMessage)
  /\ Json.get [Json.Key "choices"; Json.Idx 0; Json.Key "message";
               Json.Key "role"] (chatCompletionDoc env)
     = Some (Json.JStr "assistant").
Proof. done. Qed.

Lemma legacy_shape (env : Env) :
  Json.field "object" (legacyCompletionDoc env) = Some (Json.JStr "text_completion")
  /\ Json.get [Json.Key "choices"; Json.Idx 0; Json.Key "text"]
       (legacyCompletionDoc env)
     = Some (Json.JStr blockedMessage).
Proof. done. Qed.

Lemma responseDoc_cases (endpoint : string) (env : Env) :
  responseDoc endpoint env
  = if decide (endpoint = "/v1/completions")
    then legacyCompletionDoc env else chatCompletionDoc env.
Proof.
  unfold responseDoc. case_decide as Hd.
  - by rewrite Hd.
  - destruct (String.eqb_spec endpoint "/v1/chat/completions"); [done |].
    destruct (String.eqb_spec endpoint "/v1/completions"); [done |].
    by destruct (String.eqb endpoint "/v1/responses").
Qed.

(* how ServeHTTP comes to the two places where a request is blocked *)
Lemma ServeHTTP_input_stage (h : ProxyHandler) (env : Env) (scheds : Schedules)
    (w : ResponseWriter) (r : Request) (s : Sys) (providerName : string)
    (provider : Provider) (executor : Executor) (body : Reader)
    (bodyBytes : bytes) :
  routes h !! URLPath r = Some providerName ->
  providers h !! providerName = Some provider ->
  Strings.ToUpper (Method r) ∈ allowedMethods ->
  r_Body r = Some body ->
  Middleware.hasBody (Method r) = true ->
  ReadAll body = inl bodyBytes ->
  bodyBytes <> [] ->
  guardrailExecutor h = Some executor ->
  serve h env scheds w r s
  = afterInputGuardrails json_Marshal gunzip h env scheds provider w
      (withBody r (NewReader bodyBytes)) s
      (ExecuteInput executor bodyBytes (sch_input scheds) (sys_world s)).
Proof.
  intros Hr Hp Hm Hb Hh Hread Hne He. unfold ServeHTTP.
  rewrite Hr, Hp. apply isMethodAllowed_spec with (endpoint := URLPath r)
    (provider := provider) in Hm. rewrite Hm. simpl.
  rewrite Hb, Hh, Hread, He.
  destruct bodyBytes; [done |]. done.
Qed.

Lemma proxyStage_output_stage (h : ProxyHandler) (env : Env) (scheds : Schedules)
    (provider : Provider) (w : ResponseWriter) (r : Request) (s : Sys)
    (executor : Executor) (resp : Response) (body : bytes) :
  ProxyRequest provider (URLPath r) r = inl resp ->
  ReadAll (resp_Body resp) = inl body ->
  guardrailExecutor h = Some executor ->
  let responseBody :=
    if Strings.Contains
         (Strings.ToLower (hGet (resp_Header resp) "Content-Encoding")) "gzip"
    then default body (gunzip body) else body in
  responseBody <> [] ->
  proxyStage json_Marshal gunzip h env scheds provider w r s
  = afterOutputGuardrails json_Marshal executor env scheds w r
      (mkSys (sys_world s) (sys_upstream s ++ [r])) resp responseBody body
      (ExecuteOutput executor responseBody (sch_output scheds) (sys_world s)).
Proof.
  intros Hp Hread He responseBody Hne. unfold proxyStage.
  rewrite Hp, Hread, He. fold responseBody.
  destruct responseBody; [done |]. done.
Qed.


End ProxyHandler.

(* --------------------------------------------------------------------- *)
(* the executor: one group                                               *)
(* --------------------------------------------------------------------- *)

Section GroupRun.
Import Guardrails.

Lemma countOf_insert (p : TaskStatus -> bool) (l : list TaskStatus) (i : nat)
    (s s' : TaskStatus) :
  l !! i = Some s ->
  (countOf p (<[i := s']> l) + Nat.b2n (p s) = countOf p l + Nat.b2n (p s'))%nat.
Proof.
  unfold countOf. revert i. induction l as [| x l IH]; intros i Hi; [done |].
  destruct i as [| i]; simpl in *.
  - injection Hi as ->. destruct (p s), (p s'); simpl; lia.
  - specialize (IH i Hi). destruct (p x); simpl; lia.
Qed.

Lemma countOf_replicate (p : TaskStatus -> bool) (n : nat) (s : TaskStatus) :
  p s = false -> countOf p (replicate n s) = 0%nat.
Proof.
  intros Hp. unfold countOf. induction n as [| n IH]; [done |].
  simpl. by rewrite Hp.
Qed.

Lemma countOf_finished (l : list TaskStatus) :
  Forall (fun s => finished s = true) l ->
  (countOf isCompleted l + countOf isSkipped l = length l)%nat.
Proof.
  unfold countOf. induction 1 as [| s l Hs _ IH]; [done |].
  destruct s; simpl in *; try discriminate; lia.
Qed.

Variable e : Executor.
Variable layer : string.
Variables originalResponse overrideResponse : option bytes.
Variable content : bytes.
Variable guardrails : list Guardrail.

Local Abbreviation step' :=
  (step e layer originalResponse overrideResponse content guardrails).

(* an invariant of the steps holds after any schedule *)
Lemma foldl_step_inv (P : GroupState -> Prop) (evs : list Event) (st : GroupState) :
  (forall st ev, P st -> P (step' ev st)) ->
  P st -> P (foldl (fun st ev => step' ev st) st evs).
Proof.
  intros Hstep. revert st. induction evs as [| ev evs IH]; intros st Hst; [done |].
  simpl. apply IH. by apply Hstep.
Qed.

(* the world of the state a task returns in *)
Lemma taskReturn_world (i : nat) (final : TaskStatus) (err : option string)
    (st : GroupState) :
  gs_world (taskReturn i final err st) = gs_world st.
Proof. unfold taskReturn. by destruct err, (gs_err st). Qed.

Lemma taskReturn_status (i : nat) (final : TaskStatus) (err : option string)
    (st : GroupState) :
  gs_status (taskReturn i final err st) = <[i := final]> (gs_status st).
Proof. unfold taskReturn. by destruct err, (gs_err st). Qed.

Lemma taskReturn_results (i : nat) (final : TaskStatus) (err : option string)
    (st : GroupState) :
  gs_results (taskReturn i final err st) = gs_results st.
Proof. unfold taskReturn. by destruct err, (gs_err st). Qed.

Lemma taskReturn_firstFailure (i : nat) (final : TaskStatus)
    (err : option string) (st : GroupState) :
  gs_firstFailure (taskReturn i final err st) = gs_firstFailure st.
Proof. unfold taskReturn. by destruct err, (gs_err st). Qed.

Lemma taskReturn_err (i : nat) (final : TaskStatus) (err : option string)
    (st : GroupState) :
  gs_err (taskReturn i final err st)
  = match gs_err st with Some e0 => Some e0 | None => err end.
Proof. unfold taskReturn. by destruct err, (gs_err st). Qed.

(* what a finishing task adds to the world: its invocation, and its
   metric when there is a writer *)
Lemma taskMetric_matches (g : Guardrail) (startTime now : Z)
    (outcome : Result + string) :
  metricMatches
    (taskMetric layer originalResponse overrideResponse g startTime now outcome)
    (mkCall (Name g) (Priority g) content outcome).
Proof.
  destruct outcome as [result |]; repeat split; simpl;
    by rewrite ?negb_involutive.
Qed.

Lemma taskFinish_world (i : nat) (g : Guardrail) (startTime : Z) (st : GroupState) :
  let outcome := g_Check g (bool_decide (is_Some (gs_ctxErr st))) content in
  let c := mkCall (Name g) (Priority g) content outcome in
  let m := taskMetric layer originalResponse overrideResponse g startTime
             (w_clock (gs_world st)) outcome in
  let st' := taskFinish e layer originalResponse overrideResponse content i g
               startTime st in
  w_calls (gs_world st') = w_calls (gs_world st) ++ [c]
  /\ w_metrics (gs_world st')
     = w_metrics (gs_world st) ++ (if hasMetricsWriter e then [m] else [])
  /\ w_clock (gs_world st') = w_clock (gs_world st)
  /\ w_parentDone (gs_world st') = w_parentDone (gs_world st)
  /\ gs_status st' = <[i := Completed]> (gs_status st).
Proof.
  simpl. unfold taskFinish.
  destruct (g_Check g _ content) as [result | err];
    [destruct (negb (Passed result)) |];
    rewrite taskReturn_world, taskReturn_status; simpl; unfold writeMetric;
    destruct (hasMetricsWriter e); simpl; by rewrite ?app_nil_r.
Qed.

(* the four ways a step goes *)
Lemma step_cases (ev : Event) (st : GroupState) :
  step' ev st = st
  \/ (ev = EvDeadline
      /\ step' ev st
         = mkGroupState
             (mkWorld (w_clock (gs_world st) + 1) true (w_metrics (gs_world st))
                (w_calls (gs_world st)))
             (match gs_ctxErr st with
              | Some c => Some c
              | None => Some deadlineExceeded
              end)
             (gs_status st) (gs_err st) (gs_firstFailure st) (gs_results st))
  \/ (exists i, ev = EvStart i /\ gs_status st !! i = Some NotStarted
                /\ step' ev st = taskStart i (ticked st))
  \/ (exists i g startTime,
        ev = EvFinish i /\ gs_status st !! i = Some (InFlight startTime)
        /\ guardrails !! i = Some g
        /\ step' ev st
           = taskFinish e layer originalResponse overrideResponse content
               i g startTime (ticked st)).
Proof.
  destruct ev as [i | i |]; unfold step; simpl.
  - destruct (gs_status st !! i) as [[| | |] |] eqn:Hs; auto.
    right; right; left. eauto.
  - destruct (gs_status st !! i) as [[| startTime | |] |] eqn:Hs; auto.
    destruct (guardrails !! i) as [g |] eqn:Hg; auto.
    right; right; right. eauto 10.
  - right; left. done.
Qed.

(* what a starting task does: it is skipped when the group context is
   done, and in flight otherwise; the world is as it was *)
Lemma taskStart_spec (i : nat) (st : GroupState) :
  gs_world (taskStart i st) = gs_world st
  /\ gs_results (taskStart i st) = gs_results st
  /\ gs_firstFailure (taskStart i st) = gs_firstFailure st
  /\ gs_status (taskStart i st)
     = <[i := if bool_decide (is_Some (gs_ctxErr st))
              then Skipped else InFlight (w_clock (gs_world st))]> (gs_status st).
Proof.
  unfold taskStart. destruct (gs_ctxErr st) as [c |] eqn:Hc.
  - by rewrite taskReturn_world, taskReturn_results, taskReturn_firstFailure,
      taskReturn_status.
  - done.
Qed.

Section Counting.
Variable metrics0 : list Metric.
Variable calls0 : list Call.

Local Abbreviation counted := (counted e guardrails content metrics0 calls0).

Lemma counted_step (st : GroupState) (ev : Event) :
  counted st -> counted (step' ev st).
Proof.
  intros (Hlen & newM & newC & Hm & Hc & Hn & Hmatch & Hcalls).
  destruct (step_cases ev st)
    as [-> | [[_ ->] | [(i & _ & Hs & ->) | (i & g & t & _ & Hs & Hg & ->)]]].
  - split; [done |]. eauto 10.
  - split; [done |]. simpl. eauto 10.
  - destruct (taskStart_spec i (ticked st)) as (Hw & _ & _ & Hst).
    split; [rewrite Hst; simpl; by rewrite length_insert |].
    exists newM, newC. rewrite Hw, Hst. simpl.
    repeat split; try done.
    pose proof (countOf_insert isCompleted _ i _
                  (if bool_decide (is_Some (gs_ctxErr st))
                   then Skipped else InFlight (w_clock (gs_world st) + 1)) Hs)
      as Hcount.
    simpl in Hcount. destruct (bool_decide _); simpl in Hcount; lia.
  - destruct (taskFinish_world i g t (ticked st)) as (Hw1 & Hw2 & _ & _ & Hst).
    split; [rewrite Hst; simpl; by rewrite length_insert |].
    eexists (newM ++ (if hasMetricsWriter e then [_] else [])), (newC ++ [_]).
    rewrite Hw1, Hw2, Hst. simpl. rewrite Hm, Hc, <- !(assoc app).
    repeat split.
    + rewrite length_app. simpl.
      pose proof (countOf_insert isCompleted _ i _ Completed Hs) as Hcount.
      simpl in Hcount. lia.
    + destruct (hasMetricsWriter e).
      * apply Forall2_app; [done |]. constructor; [| constructor].
        apply taskMetric_matches.
      * by rewrite app_nil_r.
    + apply Forall_app. split; [done |]. constructor; [| constructor].
      exists g, (bool_decide (is_Some (gs_ctxErr st))).
      split; [by apply list_elem_of_lookup_2 with i | done].
Qed.

End Counting.

Lemma step_status_length (ev : Event) (st : GroupState) :
  length (gs_status (step' ev st)) = length (gs_status st).
Proof.
  destruct (step_cases ev st)
    as [-> | [[_ ->] | [(i & _ & Hs & ->) | (i & g & t & _ & Hs & Hg & ->)]]];
    [done | done | |].
  - destruct (taskStart_spec i (ticked st)) as (_ & _ & _ & ->).
    by rewrite length_insert.
  - destruct (taskFinish_world i g t (ticked st)) as (_ & _ & _ & _ & ->).
    by rewrite length_insert.
Qed.

(* a task that has returned stays as it is *)
Lemma step_status_stable (ev : Event) (st : GroupState) (i : nat) (s : TaskStatus) :
  gs_status st !! i = Some s -> finished s = true ->
  gs_status (step' ev st) !! i = Some s.
Proof.
  intros Hi Hf.
  destruct (step_cases ev st)
    as [-> | [[_ ->] | [(j & _ & Hs & ->) | (j & g & t & _ & Hs & Hg & ->)]]];
    [done | done | |].
  - destruct (taskStart_spec j (ticked st)) as (_ & _ & _ & ->). simpl.
    rewrite list_lookup_insert_ne; [done |]. intros ->.
    rewrite Hs in Hi. by injection Hi as <-.
  - destruct (taskFinish_world j g t (ticked st)) as (_ & _ & _ & _ & ->). simpl.
    rewrite list_lookup_insert_ne; [done |]. intros ->.
    rewrite Hs in Hi. by injection Hi as <-.
Qed.

Lemma step_start_eq (st : GroupState) (i : nat) :
  gs_status st !! i = Some NotStarted ->
  step' (EvStart i) st = taskStart i (ticked st).
Proof.
  intros Hs. unfold step.
  change (gs_status (withWorld (tick (gs_world st)) st)) with (gs_status st).
  by rewrite Hs.
Qed.

Lemma step_finish_eq (st : GroupState) (i : nat) (g : Guardrail) (t : Z) :
  gs_status st !! i = Some (InFlight t) ->
  guardrails !! i = Some g ->
  step' (EvFinish i) st
  = taskFinish e layer originalResponse overrideResponse content i g t (ticked st).
Proof.
  intros Hs Hg. unfold step.
  change (gs_status (withWorld (tick (gs_world st)) st)) with (gs_status st).
  by rewrite Hs, Hg.
Qed.

(* starting and finishing a task brings it to its return, whatever its
   status was *)
Lemma start_finish_finished (st : GroupState) (i : nat) :
  length (gs_status st) = length guardrails ->
  (i < length guardrails)%nat ->
  exists s, gs_status (step' (EvFinish i) (step' (EvStart i) st)) !! i = Some s
            /\ finished s = true.
Proof.
  intros Hlen Hi.
  destruct (lookup_lt_is_Some_2 (gs_status st) i) as [s0 Hs0]; [lia |].
  destruct (lookup_lt_is_Some_2 guardrails i) as [g Hg]; [lia |].
  assert (Hfin : forall st1 t, gs_status st1 !! i = Some (InFlight t) ->
            exists s, gs_status (step' (EvFinish i) st1) !! i = Some s
                      /\ finished s = true).
  { intros st1 t H1. rewrite (step_finish_eq st1 i g t H1 Hg).
    destruct (taskFinish_world i g t (ticked st1)) as (_ & _ & _ & _ & ->).
    exists Completed. split; [| done]. simpl.
    apply list_lookup_insert_eq. by apply lookup_lt_Some in H1. }
  destruct s0 as [| t | |].
  - rewrite (step_start_eq st i Hs0).
    destruct (taskStart_spec i (ticked st)) as (_ & _ & _ & Hs1). simpl in Hs1.
    assert (Hl : gs_status (taskStart i (ticked st)) !! i
                 = Some (if bool_decide (is_Some (gs_ctxErr st))
                         then Skipped else InFlight (w_clock (gs_world st) + 1))).
    { rewrite Hs1. apply list_lookup_insert_eq. lia. }
    destruct (bool_decide (is_Some (gs_ctxErr st))).
    + exists Skipped. split; [| done]. by apply step_status_stable.
    + by apply Hfin with (w_clock (gs_world st) + 1).
  - assert (Hst : step' (EvStart i) st = st).
    { unfold step. simpl. by rewrite Hs0. }
    rewrite Hst. by apply Hfin with t.
  - exists Skipped. split; [| done].
    apply step_status_stable; [| done]. by apply step_status_stable.
  - exists Completed. split; [| done].
    apply step_status_stable; [| done]. by apply step_status_stable.
Qed.

Lemma foldl_step_length (evs : list Event) (st : GroupState) :
  length (gs_status (foldl (fun st ev => step' ev st) st evs))
  = length (gs_status st).
Proof.
  apply (foldl_step_inv
           (fun st' => length (gs_status st') = length (gs_status st))); [| done].
  intros st' ev H. by rewrite step_status_length.
Qed.

(* after the completion of the first k tasks, these have returned *)
Lemma completion_finished (k : nat) (st : GroupState) :
  length (gs_status st) = length guardrails ->
  (k <= length guardrails)%nat ->
  forall i, (i < k)%nat ->
    exists s, gs_status (foldl (fun st ev => step' ev st) st (completion k)) !! i
              = Some s /\ finished s = true.
Proof.
  intros Hlen. unfold completion. induction k as [| k IH]; intros Hk i Hi; [lia |].
  rewrite seq_S, flat_map_app, foldl_app. cbn [flat_map foldl app Nat.add].
  set (st1 := foldl (fun st ev => step' ev st) st
                (flat_map (fun i => [EvStart i; EvFinish i]) (seq 0 k))) in *.
  assert (Hlen1 : length (gs_status st1) = length guardrails).
  { unfold st1. by rewrite foldl_step_length. }
  destruct (decide (i = k)) as [-> | Hne].
  - apply start_finish_finished; [done | lia].
  - destruct (IH ltac:(lia) i ltac:(lia)) as (s & Hs & Hf).
    exists s. split; [| done].
    apply step_status_stable; [| done]. by apply step_status_stable.
Qed.

(* the group as g.Wait() finds it: every task has returned, every
   invocation of a check is logged, and with a writer each invocation has
   its metric *)
Lemma runGroup_counted (sched : list Event) (w : World) :
  let st := runGroup e layer originalResponse overrideResponse content
              guardrails sched w in
  counted e guardrails content (w_metrics w) (w_calls w) st
  /\ Forall (fun s => finished s = true) (gs_status st).
Proof.
  simpl. unfold runGroup.
  set (st0 := mkGroupState w _ _ None None _).
  assert (H0 : counted e guardrails content (w_metrics w) (w_calls w) st0).
  { split; [simpl; by rewrite length_replicate |].
    exists [], []. simpl. rewrite !app_nil_r.
    rewrite countOf_replicate by done.
    repeat split; try done. by destruct (hasMetricsWriter e). }
  split.
  - apply foldl_step_inv; [| done]. intros st ev. apply counted_step.
  - rewrite foldl_app.
    set (st1 := foldl _ st0 sched).
    assert (Hlen1 : length (gs_status st1) = length guardrails).
    { unfold st1. rewrite foldl_step_length. simpl. by rewrite length_replicate. }
    apply Forall_lookup. intros i s Hs.
    assert (Hi : (i < length guardrails)%nat).
    { apply lookup_lt_Some in Hs. rewrite foldl_step_length in Hs. lia. }
    destruct (completion_finished (length guardrails) st1 Hlen1 ltac:(lia) i Hi)
      as (s' & Hs' & Hf).
    congruence.
Qed.

(* what a finishing task does to the failure, the error and the results *)
Lemma taskFinish_failed (i : nat) (g : Guardrail) (t : Z) (st : GroupState) :
  let outcome := g_Check g (bool_decide (is_Some (gs_ctxErr st))) content in
  let st' := taskFinish e layer originalResponse overrideResponse content i g t st in
  failed outcome = true ->
  gs_firstFailure st' = trackFailure g (reasonOf outcome) (gs_firstFailure st)
  /\ is_Some (gs_err st')
  /\ gs_results st' = gs_results st.
Proof.
  cbv zeta. unfold taskFinish.
  destruct (g_Check g _ content) as [result | err]; intros Hf.
  - cbn [failed] in Hf. rewrite Hf.
    rewrite taskReturn_firstFailure, taskReturn_results, taskReturn_err.
    cbn. split; [done |]. split; [| done]. destruct (gs_err st); eauto.
  - rewrite taskReturn_firstFailure, taskReturn_results, taskReturn_err.
    cbn. split; [done |]. split; [| done]. destruct (gs_err st); eauto.
Qed.

Lemma taskFinish_passed (i : nat) (g : Guardrail) (t : Z) (st : GroupState) :
  let outcome := g_Check g (bool_decide (is_Some (gs_ctxErr st))) content in
  let st' := taskFinish e layer originalResponse overrideResponse content i g t st in
  failed outcome = false ->
  exists result,
    outcome = inl result
    /\ gs_firstFailure st' = gs_firstFailure st
    /\ gs_err st' = gs_err st
    /\ gs_results st'
       = <[i := Some (mkGuardrailResult (Name g) (Priority g) result
                        (w_clock (gs_world st) - t))]> (gs_results st).
Proof.
  cbv zeta. unfold taskFinish.
  destruct (g_Check g _ content) as [result | err]; intros Hf; [| done].
  cbn [failed] in Hf. rewrite Hf.
  rewrite taskReturn_firstFailure, taskReturn_results, taskReturn_err.
  cbn. exists result. repeat split; try done. by destruct (gs_err st).
Qed.

Lemma taskStart_err (i : nat) (st : GroupState) :
  is_Some (gs_err st) -> is_Some (gs_err (taskStart i st)).
Proof.
  intros [e0 He]. unfold taskStart. destruct (gs_ctxErr st); [| by rewrite He].
  rewrite taskReturn_err, He. eauto.
Qed.

Section Tracking.
Variable calls0 : list Call.

Local Abbreviation tracked := (tracked guardrails calls0).

Lemma tracked_step (st : GroupState) (ev : Event) :
  tracked st -> tracked (step' ev st).
Proof.
  intros (Hlr & Hls & Hfe & newC & Hc & Hnone & Hsome & Hres & Hpass).
  destruct (step_cases ev st)
    as [-> | [[_ ->] | [(i & _ & Hs & ->) | (i & g & t & _ & Hs & Hg & ->)]]].
  - repeat split; eauto 10.
  - repeat split; simpl; eauto 10.
  - destruct (taskStart_spec i (ticked st)) as (Hw & Hr & Hff & Hst).
    unfold tracked. rewrite Hr, Hff, Hst. simpl.
    split; [done |]. split; [by rewrite length_insert |].
    split; [intros H; apply taskStart_err; simpl; auto |].
    exists newC. rewrite Hw. simpl.
    repeat split; try done.
    + destruct (Hres i0 r H) as [Hc0 _].
      rewrite list_lookup_insert_ne; [done |]. intros ->. congruence.
    + by destruct (Hres i0 r H) as [_ ?].
  - destruct (taskFinish_world i g t (ticked st)) as (Hw1 & _ & _ & _ & Hst).
    set (outcome := g_Check g (bool_decide (is_Some (gs_ctxErr (ticked st)))) content)
      in *.
    set (c := mkCall (Name g) (Priority g) content outcome) in *.
    assert (Hi : (i < length (gs_status st))%nat) by (by apply lookup_lt_Some in Hs).
    destruct (failed outcome) eqn:Hf.
    + destruct (taskFinish_failed i g t (ticked st) Hf) as (Hff & He & Hr).
      fold outcome in Hff. unfold tracked. rewrite Hr, Hst. simpl.
      split; [done |]. split; [by rewrite length_insert |].
      split; [done |].
      exists (newC ++ [c]). rewrite Hw1. simpl. rewrite Hc, <- (assoc app).
      split; [done |]. rewrite Hff. simpl.
      split; [| split; [| split]].
      * unfold trackFailure. destruct (gs_firstFailure st) as [f |]; [| done].
        by destruct (Priority g <? f_Priority f).
      * intros f' Hf'. unfold trackFailure in Hf'.
        assert (Hnew : names (mkFailure (Name g) (Priority g) (reasonOf outcome)) c)
          by done.
        destruct (gs_firstFailure st) as [f |] eqn:Hold.
        -- destruct (Priority g <? f_Priority f); injection Hf' as <-.
           ++ exists c. split; [apply elem_of_app; right; by constructor | done].
           ++ destruct (Hsome f eq_refl) as (c0 & Hin & Hn).
              exists c0. split; [apply elem_of_app; by left | done].
        -- injection Hf' as <-. exists c. split; [apply elem_of_app; right; by constructor | done].
      * intros i0 r H0. destruct (Hres i0 r H0) as (Hc0 & c0 & Hin & Hp & Hro).
        split.
        -- destruct (decide (i0 = i)) as [-> | Hne].
           ++ by apply list_lookup_insert_eq.
           ++ by rewrite list_lookup_insert_ne.
        -- exists c0. split; [apply elem_of_app; by left | done].
      * intros c0 Hin Hp. apply elem_of_app in Hin as [Hin | Hin].
        -- by apply Hpass.
        -- apply list_elem_of_singleton in Hin as ->.
           unfold passedCall in Hp. simpl in Hp. congruence.
    + destruct (taskFinish_passed i g t (ticked st) Hf)
        as (result & Ho & Hff & He & Hr).
      fold outcome in Ho. unfold tracked. rewrite Hr, Hst, Hff, He. simpl.
      split; [by rewrite length_insert |]. split; [by rewrite length_insert |].
      split; [done |].
      exists (newC ++ [c]). rewrite Hw1. simpl. rewrite Hc, <- (assoc app).
      split; [done |].
      assert (Hcp : passedCall c) by done.
      split; [| split; [| split]].
      * intros Hn. apply Forall_app. split; [auto |]. by constructor.
      * intros f Hf'. destruct (Hsome f Hf') as (c0 & Hin & Hn).
        exists c0. split; [apply elem_of_app; by left | done].
      * intros i0 r H0. destruct (decide (i0 = i)) as [-> | Hne].
        -- rewrite list_lookup_insert_eq in H0 by lia. injection H0 as <-.
           split; [by apply list_lookup_insert_eq |].
           exists c. split; [apply elem_of_app; right; by constructor |]. split; [done |].
           unfold resultOf, c. simpl. by rewrite Ho.
        -- rewrite list_lookup_insert_ne in H0 by done.
           destruct (Hres i0 r H0) as (Hc0 & c0 & Hin & Hp & Hro).
           split; [by rewrite list_lookup_insert_ne |].
           exists c0. split; [apply elem_of_app; by left | done].
      * intros c0 Hin Hp. apply elem_of_app in Hin as [Hin | Hin].
        -- destruct (Hpass c0 Hin Hp) as (i0 & r & H0 & Hro).
           exists i0, r. split; [| done].
           rewrite list_lookup_insert_ne; [done |]. intros <-.
           destruct (Hres i r H0) as [Hc0 _]. congruence.
        -- apply list_elem_of_singleton in Hin as ->.
           eexists i, _. split; [apply list_lookup_insert_eq; lia |].
           unfold resultOf, c. simpl. by rewrite Ho.
Qed.

End Tracking.

Lemma runGroup_tracked (sched : list Event) (w : World) :
  tracked guardrails (w_calls w)
    (runGroup e layer originalResponse overrideResponse content guardrails sched w).
Proof.
  unfold runGroup. apply foldl_step_inv; [intros st ev; apply tracked_step |].
  unfold tracked. simpl. rewrite !length_replicate.
  split; [done |]. split; [done |]. split; [by intros [? ?] |].
  exists []. rewrite app_nil_r.
  split; [done |]. split; [by constructor |]. split; [done |]. split.
  - intros i r Hi. apply lookup_replicate in Hi as [? _]. done.
  - intros c Hc. by apply elem_of_nil in Hc.
Qed.

End GroupRun.

(* --------------------------------------------------------------------- *)
(* the executor: the priority groups                                     *)
(* --------------------------------------------------------------------- *)

Section PriorityGroups.
Import Guardrails.

Lemma groupByPriority_snoc (gs : list Guardrail) (g : Guardrail) :
  groupByPriority (gs ++ [g])
  = <[Priority g := default [] (groupByPriority gs !! Priority g) ++ [g]]>
      (groupByPriority gs).
Proof. unfold groupByPriority. by rewrite foldl_app. Qed.

(* the group of a priority: the guardrails of that priority, in slice
   order; no group is empty *)
Lemma groupByPriority_lookup (gs : list Guardrail) (p : Z) :
  groupByPriority gs !! p
  = match filter (fun g => Priority g = p) gs with
    | [] => None
    | l => Some l
    end.
Proof.
  induction gs as [| g gs IH] using rev_ind; [done |].
  rewrite groupByPriority_snoc, filter_app.
  destruct (decide (Priority g = p)) as [<- | Hne].
  - rewrite lookup_insert_eq, IH.
    rewrite (filter_cons_True _ g []) by done.
    destruct (filter _ gs); simpl; done.
  - rewrite lookup_insert_ne by done. rewrite IH.
    rewrite (filter_cons_False _ g []) by done.
    by rewrite app_nil_r.
Qed.

Lemma group_priority (gs : list Guardrail) (p : Z) (g : Guardrail) :
  g ∈ default [] (groupByPriority gs !! p) -> g ∈ gs /\ Priority g = p.
Proof.
  rewrite groupByPriority_lookup.
  destruct (filter _ gs) as [| g0 l] eqn:Hf; simpl.
  - intros H. by apply elem_of_nil in H.
  - rewrite <- Hf. intros H. by apply list_elem_of_filter in H as [? ?].
Qed.

Lemma sortedPriorities_elem (gs : list Guardrail) (p : Z) :
  p ∈ sortedPriorities (groupByPriority gs)
  <-> exists g, g ∈ gs /\ Priority g = p.
Proof.
  unfold sortedPriorities. rewrite merge_sort_Permutation.
  rewrite elem_of_elements, elem_of_dom, groupByPriority_lookup.
  split.
  - intros [l Hl]. destruct (filter _ gs) as [| g0 l0] eqn:Hf; [done |].
    assert (H0 : g0 ∈ filter (fun g => Priority g = p) gs)
      by (rewrite Hf; by left).
    apply list_elem_of_filter in H0 as [? ?]. eauto.
  - intros (g & Hin & Hp).
    assert (Hg : g ∈ filter (fun g => Priority g = p) gs)
      by (by apply list_elem_of_filter).
    destruct (filter _ gs); [by apply elem_of_nil in Hg | eauto].
Qed.

Lemma StronglySorted_le_NoDup_lt (l : list Z) :
  StronglySorted Z.le l -> NoDup l -> StronglySorted Z.lt l.
Proof.
  induction 1 as [| x l Hs IH Hall]; intros Hnd; [constructor |].
  apply NoDup_cons in Hnd as [Hx Hnd].
  constructor; [auto |].
  apply Forall_forall. intros y Hy.
  rewrite Forall_forall in Hall. specialize (Hall y Hy).
  assert (x <> y) by (intros ->; done). lia.
Qed.

(* the priorities are enumerated in strictly ascending order *)
Lemma sortedPriorities_sorted (groups : gmap Z (list Guardrail)) :
  StronglySorted Z.lt (sortedPriorities groups).
Proof.
  unfold sortedPriorities. apply StronglySorted_le_NoDup_lt.
  - apply StronglySorted_merge_sort; apply _.
  - rewrite merge_sort_Permutation. apply NoDup_elements.
Qed.

Variable e : Executor.
Variable layer : string.
Variables originalResponse overrideResponse : option bytes.

Local Abbreviation group :=
  (fun content guardrails sched w =>
     executeGroupParallel e content guardrails layer originalResponse
       overrideResponse sched w).

(* one group: no error is returned; the invocations are of the group's
   guardrails on the content; a failed invocation makes the group fail
   and the result names one; the results are those of the passing
   invocations *)
Lemma executeGroupParallel_spec (content : bytes) (guardrails : list Guardrail)
    (sched : list Event) (w : World) :
  let out := group content guardrails sched w in
  out.1.2 = None
  /\ exists calls,
       w_calls out.2 = w_calls w ++ calls
       /\ Forall (callOf guardrails content) calls
       /\ (e_Passed out.1.1 = true -> Forall passedCall calls)
       /\ (forall c, c ∈ calls -> failedCall c ->
              e_Passed out.1.1 = false
              /\ exists c', c' ∈ calls /\ failedCall c'
                            /\ FailedGuardrail out.1.1 = c_Name c'
                            /\ FailureReason out.1.1 = reasonOf (c_Outcome c'))
       /\ (forall r, Some r ∈ Results out.1.1 ->
              exists c, c ∈ calls /\ passedCall c /\ resultOf r c)
       /\ (forall c, c ∈ calls -> passedCall c ->
              exists r, Some r ∈ Results out.1.1 /\ resultOf r c).
Proof.
  cbv zeta. unfold executeGroupParallel.
  destruct guardrails as [| g0 gs0] eqn:Hgs.
  { simpl. split; [done |]. exists []. rewrite app_nil_r.
    split_and!; try done.
    - intros c Hc. by apply elem_of_nil in Hc.
    - intros r Hr. by apply elem_of_nil in Hr.
    - intros c Hc. by apply elem_of_nil in Hc. }
  rewrite <- Hgs. clear Hgs g0 gs0.
  pose proof (runGroup_counted e layer originalResponse overrideResponse content
                guardrails sched w) as [Hcount _].
  pose proof (runGroup_tracked e layer originalResponse overrideResponse content
                guardrails sched w) as Htr.
  set (st := runGroup e layer originalResponse overrideResponse content
               guardrails sched w) in *.
  destruct Hcount as (_ & newM & calls & _ & Hc & _ & _ & Hcalls).
  destruct Htr as (_ & _ & Hfe & calls' & Hc' & Hnone & Hsome & Hres & Hpass).
  assert (calls' = calls) as -> by (rewrite Hc in Hc'; by apply app_inv_head in Hc').
  assert (Hr1 : forall r, Some r ∈ gs_results st ->
            exists c, c ∈ calls /\ passedCall c /\ resultOf r c).
  { intros r Hr. apply list_elem_of_lookup in Hr as [i Hi].
    by destruct (Hres i r Hi) as [_ ?]. }
  assert (Hr2 : forall c, c ∈ calls -> passedCall c ->
            exists r, Some r ∈ gs_results st /\ resultOf r c).
  { intros c Hin Hp. destruct (Hpass c Hin Hp) as (i & r & Hi & Hro).
    exists r. split; [by apply list_elem_of_lookup_2 with i | done]. }
  assert (Hfail : forall c, c ∈ calls -> failedCall c ->
            exists f, gs_firstFailure st = Some f).
  { intros c Hin Hf. destruct (gs_firstFailure st) as [f |] eqn:Hff; [eauto |].
    specialize (Hnone eq_refl). rewrite Forall_forall in Hnone.
    specialize (Hnone c Hin). unfold passedCall, failedCall in *. congruence. }
  destruct (gs_err st) as [err |] eqn:He;
    [destruct (gs_firstFailure st) as [f |] eqn:Hff |]; simpl.
  - split; [done |]. exists calls. split_and!; try done.
    intros c Hin Hf. split; [done |].
    destruct (Hsome f eq_refl) as (c' & Hin' & Hn & Hname & Hreason & _).
    exists c'. done.
  - split; [done |]. exists calls. split_and!; try done.
    intros c Hin Hf. destruct (Hfail c Hin Hf) as [f Hf']. done.
  - split; [done |]. exists calls.
    assert (Hff : gs_firstFailure st = None).
    { destruct (gs_firstFailure st) eqn:Hff; [| done].
      destruct Hfe as [? ?]; [eauto | done]. }
    split_and!; try done; try (by auto).
    intros c Hin Hf. destruct (Hfail c Hin Hf) as [f Hf']. congruence.
Qed.

Lemma filter_inGroup_same (p : Z) (l : list (option GuardrailResult)) :
  (forall r, Some r ∈ l -> r_Priority r = p) ->
  firstModified (List.filter (inGroup p) l) = firstModified l.
Proof.
  induction l as [| [r |] l IH]; intros Hall; [done | |].
  - simpl. rewrite (Hall r) by (by left). rewrite Z.eqb_refl. simpl.
    rewrite IH; [done |]. intros r' Hr'. apply Hall. by right.
  - simpl. apply IH. intros r' Hr'. apply Hall. by right.
Qed.

Lemma filter_inGroup_other (q : Z) (l : list (option GuardrailResult)) :
  (forall r, Some r ∈ l -> r_Priority r <> q) ->
  List.filter (inGroup q) l = [].
Proof.
  induction l as [| [r |] l IH]; intros Hall; [done | |].
  - simpl. destruct (Z.eqb_spec (r_Priority r) q) as [Heq | _].
    + exfalso. by apply (Hall r); [left |].
    + apply IH. intros r' Hr'. apply Hall. by right.
  - simpl. apply IH. intros r' Hr'. apply Hall. by right.
Qed.

(* no smaller priority in the list: the content is the original one *)
Lemma contentFor_first (content : bytes) (priorities : list Z)
    (results : list (option GuardrailResult)) (p : Z) :
  Forall (fun q => p <= q) priorities ->
  contentFor content priorities results p = content.
Proof.
  unfold contentFor. intros Hall. revert content.
  induction Hall as [| q qs Hq _ IH]; intros content; [done |].
  simpl. destruct (Z.ltb_spec q p); [lia | apply IH].
Qed.

Lemma contentFor_cons (content : bytes) (p : Z) (rest : list Z)
    (results : list (option GuardrailResult)) (p' : Z) :
  contentFor content (p :: rest) results p'
  = contentFor (if (p <? p')
                then nextContent content (List.filter (inGroup p) results)
                else content) rest results p'.
Proof. reflexivity. Qed.

(* the results of groups outside the list play no part *)
Lemma contentFor_ext (content : bytes) (priorities : list Z)
    (results results' : list (option GuardrailResult)) (p : Z) :
  (forall q, q ∈ priorities ->
     List.filter (inGroup q) results = List.filter (inGroup q) results') ->
  contentFor content priorities results p
  = contentFor content priorities results' p.
Proof.
  unfold contentFor. revert content.
  induction priorities as [| q qs IH]; intros content Hext; [done |].
  simpl. rewrite (Hext q) by (by left).
  apply IH. intros q' Hq'. apply Hext. by right.
Qed.

Lemma StronglySorted_le_const (p : Z) (l : list Z) :
  Forall (fun x => x = p) l -> StronglySorted Z.le l.
Proof.
  induction 1 as [| x l -> Hall IH]; constructor; [done |].
  eapply Forall_impl; [exact Hall |]. simpl. intros ? ->. lia.
Qed.

Variable priorityGroups : gmap Z (list Guardrail).
Variable sched : Z -> list Event.

Local Abbreviation loop :=
  (runGroups e layer originalResponse overrideResponse priorityGroups sched).

(* The loop over the groups, from any point of it. *)
Lemma runGroups_spec (priorities : list Z) :
  StronglySorted Z.lt priorities ->
  (forall p g, p ∈ priorities -> g ∈ default [] (priorityGroups !! p) ->
     Priority g = p) ->
  forall (allResults : list (option GuardrailResult)) (content : bytes) (w : World),
  let out := loop priorities allResults content w in
  out.1.2 = None
  /\ exists calls newResults,
       w_calls out.2 = w_calls w ++ calls
       /\ Results out.1.1 = allResults ++ newResults
       /\ Forall (fun c => c_Priority c ∈ priorities) calls
       /\ Forall (fun c =>
                    callOf (default [] (priorityGroups !! c_Priority c))
                      (contentFor content priorities newResults (c_Priority c)) c)
            calls
       /\ StronglySorted Z.le (c_Priority <$> calls)
       /\ (forall c, c ∈ calls -> failedCall c ->
              e_Passed out.1.1 = false
              /\ Forall (fun c2 => c_Priority c2 <= c_Priority c) calls
              /\ exists c', c' ∈ calls /\ failedCall c'
                            /\ c_Priority c' = c_Priority c
                            /\ FailedGuardrail out.1.1 = c_Name c'
                            /\ FailureReason out.1.1 = reasonOf (c_Outcome c'))
       /\ (forall r, Some r ∈ newResults ->
              exists c, c ∈ calls /\ passedCall c /\ resultOf r c)
       /\ (forall c, c ∈ calls -> passedCall c ->
              exists r, Some r ∈ newResults /\ resultOf r c)
       /\ (e_Passed out.1.1 = true -> Forall passedCall calls).
Proof.
  induction priorities as [| p rest IH]; intros Hsorted Hgroups allResults content w.
  { simpl. split; [done |]. exists [], []. rewrite !app_nil_r.
    split_and!; try done; try (by constructor).
    - intros c Hc. by apply elem_of_nil in Hc.
    - intros r Hr. by apply elem_of_nil in Hr.
    - intros c Hc. by apply elem_of_nil in Hc. }
  apply StronglySorted_cons in Hsorted as [Hlt Hsorted].
  rewrite Forall_forall in Hlt.
  assert (Hp : forall g, g ∈ default [] (priorityGroups !! p) -> Priority g = p).
  { intros g Hg. apply (Hgroups p g); [by left | done]. }
  assert (Hrest : forall q g, q ∈ rest -> g ∈ default [] (priorityGroups !! q) ->
                    Priority g = q).
  { intros q g Hq Hg. apply (Hgroups q g); [by right | done]. }
  cbv zeta. cbn [runGroups].
  pose proof (executeGroupParallel_spec content
                (default [] (priorityGroups !! p)) (sched p) w) as Hgroup.
  cbv beta zeta in Hgroup.
  destruct (executeGroupParallel e content (default [] (priorityGroups !! p)) layer
              originalResponse overrideResponse (sched p) w)
    as [[groupResult err] w1].
  simpl in Hgroup.
  destruct Hgroup as (-> & callsP & Hw1 & HcallsP & HpassP & HfailP & Hr1P & Hr2P).
  assert (HprioP : forall c, c ∈ callsP -> c_Priority c = p).
  { intros c Hc. rewrite Forall_forall in HcallsP.
    destruct (HcallsP c Hc) as (g & done & Hg & ->). simpl. by apply Hp. }
  assert (HprioR : forall r, Some r ∈ Results groupResult -> r_Priority r = p).
  { intros r Hr. destruct (Hr1P r Hr) as (c & Hc & _ & _ & _ & ->). by apply HprioP. }
  assert (HcontentP : forall newResults c, c ∈ callsP ->
            callOf (default [] (priorityGroups !! c_Priority c))
              (contentFor content (p :: rest) newResults (c_Priority c)) c).
  { intros newResults c Hc. rewrite (HprioP c Hc).
    rewrite contentFor_first.
    - rewrite Forall_forall in HcallsP. by apply HcallsP.
    - constructor; [lia |]. apply Forall_forall. intros q Hq.
      specialize (Hlt q Hq). lia. }
  destruct (e_Passed groupResult) eqn:Hpassed; simpl.
  - (* the group passed: the loop goes on *)
    specialize (IH Hsorted Hrest (allResults ++ Results groupResult)
                  (nextContent content (Results groupResult)) w1).
    cbv zeta in IH.
    destruct (loop rest (allResults ++ Results groupResult)
                (nextContent content (Results groupResult)) w1)
      as [[res err] w2].
    simpl in IH. simpl.
    destruct IH as (-> & callsT & newT & Hw2 & Hres & HprioT & HcontentT & HsortT
                    & HfailT & Hr1T & Hr2T & HpassT).
    split; [done |].
    exists (callsP ++ callsT), (Results groupResult ++ newT).
    rewrite Forall_forall in HprioT.
    assert (HprioNewT : forall r, Some r ∈ newT -> r_Priority r ∈ rest).
    { intros r Hr. destruct (Hr1T r Hr) as (c & Hc & _ & _ & _ & ->).
      by apply HprioT. }
    split_and!.
    + by rewrite Hw2, Hw1, (assoc app).
    + by rewrite Hres, (assoc app).
    + apply Forall_app. split; apply Forall_forall; intros c Hc.
      * rewrite (HprioP c Hc). by left.
      * right. by apply HprioT.
    + apply Forall_app. split; apply Forall_forall; intros c Hc;
        [by apply HcontentP |].
      rewrite Forall_forall in HcontentT. specialize (HcontentT c Hc).
      assert (Hq : c_Priority c ∈ rest) by (by apply HprioT).
      assert (Heq : contentFor content (p :: rest) (Results groupResult ++ newT)
                      (c_Priority c)
                    = contentFor (nextContent content (Results groupResult)) rest
                        newT (c_Priority c)).
      { rewrite contentFor_cons.
        destruct (Z.ltb_spec p (c_Priority c)) as [_ | Hge];
          [| specialize (Hlt _ Hq); lia].
        rewrite List.filter_app.
        rewrite (filter_inGroup_other p newT), app_nil_r.
        - unfold nextContent at 1. rewrite filter_inGroup_same by done.
          fold (nextContent content (Results groupResult)).
          apply contentFor_ext. intros q' Hq'.
          rewrite List.filter_app.
          rewrite (filter_inGroup_other q' (Results groupResult)); [done |].
          intros r Hr. rewrite (HprioR r Hr). specialize (Hlt q' Hq'). lia.
        - intros r Hr Heq. specialize (HprioNewT r Hr). rewrite Heq in HprioNewT.
          specialize (Hlt p HprioNewT). lia. }
      change (callOf (default [] (priorityGroups !! c_Priority c))
                (contentFor content (p :: rest) (Results groupResult ++ newT)
                   (c_Priority c)) c).
      by rewrite Heq.
    + rewrite fmap_app. apply StronglySorted_app_2; [| | done].
      * intros x1 x2 Hx1 Hx2.
        apply list_elem_of_fmap in Hx1 as (c1 & -> & Hc1).
        apply list_elem_of_fmap in Hx2 as (c2 & -> & Hc2).
        rewrite (HprioP c1 Hc1). specialize (Hlt _ (HprioT c2 Hc2)). lia.
      * apply (StronglySorted_le_const p). apply Forall_fmap, Forall_forall.
        intros c Hc. simpl. by apply HprioP.
    + intros c Hc Hf. apply elem_of_app in Hc as [Hc | Hc].
      * specialize (HpassP eq_refl). rewrite Forall_forall in HpassP.
        specialize (HpassP c Hc). unfold passedCall, failedCall in *. congruence.
      * destruct (HfailT c Hc Hf) as (Hnp & Hle & c' & Hc' & Hf' & Hpr & Hn & Hr).
        split; [done |]. split.
        -- apply Forall_app. split; [| done]. apply Forall_forall. intros c2 Hc2.
           rewrite (HprioP c2 Hc2). specialize (Hlt _ (HprioT c Hc)). lia.
        -- exists c'. split_and!; try done. apply elem_of_app. by right.
    + intros r Hr. apply elem_of_app in Hr as [Hr | Hr].
      * destruct (Hr1P r Hr) as (c & Hc & ?). exists c.
        split; [apply elem_of_app; by left | done].
      * destruct (Hr1T r Hr) as (c & Hc & ?). exists c.
        split; [apply elem_of_app; by right | done].
    + intros c Hc Hpc. apply elem_of_app in Hc as [Hc | Hc].
      * destruct (Hr2P c Hc Hpc) as (r & Hr & ?). exists r.
        split; [apply elem_of_app; by left | done].
      * destruct (Hr2T c Hc Hpc) as (r & Hr & ?). exists r.
        split; [apply elem_of_app; by right | done].
    + intros Hall. apply Forall_app. split; [by apply HpassP | by apply HpassT].
  - (* the group failed: the loop stops *)
    split; [done |]. exists callsP, (Results groupResult).
    split_and!; try done.
    + apply Forall_forall. intros c Hc. rewrite (HprioP c Hc). by left.
    + apply Forall_forall. intros c Hc. by apply HcontentP.
    + apply (StronglySorted_le_const p). apply Forall_fmap, Forall_forall.
      intros c Hc. simpl. by apply HprioP.
    + intros c Hc Hf. split; [done |]. split.
      * apply Forall_forall. intros c2 Hc2.
        rewrite (HprioP c2 Hc2), (HprioP c Hc). lia.
      * destruct (HfailP c Hc Hf) as (_ & c' & Hc' & Hf' & Hn & Hr).
        exists c'. split_and!; try done.
        by rewrite (HprioP c' Hc'), (HprioP c Hc).
Qed.

End PriorityGroups.

(* --------------------------------------------------------------------- *)
(* the executor: the claims                                              *)
(* --------------------------------------------------------------------- *)

Section ExecutorClaims.
Import Guardrails.

Lemma group_is_filter (gs : list Guardrail) (p : Z) :
  default [] (groupByPriority gs !! p) = filter (fun g => Priority g = p) gs.
Proof. rewrite groupByPriority_lookup. by destruct (filter _ gs). Qed.

(* A run of executeParallel, through the log of the check invocations it
   adds to the world. *)
Lemma executeParallel_spec (e : Executor) (content : bytes)
    (guardrails : list Guardrail) (layer : string)
    (originalResponse overrideResponse : option bytes)
    (sched : Z -> list Event) (w : World) :
  let priorities := sortedPriorities (groupByPriority guardrails) in
  let out := executeParallel e content guardrails layer originalResponse
               overrideResponse sched w in
  StronglySorted Z.lt priorities
  /\ (forall p, p ∈ priorities <-> exists g, g ∈ guardrails /\ Priority g = p)
  /\ out.1.2 = None
  /\ exists calls,
       w_calls out.2 = w_calls w ++ calls
       /\ Forall (fun c =>
                    callOf (filter (fun g => Priority g = c_Priority c) guardrails)
                      (contentFor content priorities (Results out.1.1)
                         (c_Priority c)) c) calls
       /\ StronglySorted Z.le (c_Priority <$> calls)
       /\ (forall c, c ∈ calls -> failedCall c ->
              e_Passed out.1.1 = false
              /\ Forall (fun c2 => c_Priority c2 <= c_Priority c) calls
              /\ exists c', c' ∈ calls /\ failedCall c'
                            /\ c_Priority c' = c_Priority c
                            /\ FailedGuardrail out.1.1 = c_Name c'
                            /\ FailureReason out.1.1 = reasonOf (c_Outcome c'))
       /\ (forall r, Some r ∈ Results out.1.1 ->
              exists c, c ∈ calls /\ passedCall c /\ resultOf r c)
       /\ (forall c, c ∈ calls -> passedCall c ->
              exists r, Some r ∈ Results out.1.1 /\ resultOf r c)
       /\ (e_Passed out.1.1 = true -> Forall passedCall calls).
Proof.
  cbv zeta.
  split; [apply sortedPriorities_sorted |].
  split; [apply sortedPriorities_elem |].
  unfold executeParallel. destruct guardrails as [| g0 gs0] eqn:Hgs.
  { simpl. split; [done |]. exists []. rewrite app_nil_r.
    split_and!; try done; try (by constructor).
    - intros c Hc. by apply elem_of_nil in Hc.
    - intros r Hr. by apply elem_of_nil in Hr.
    - intros c Hc. by apply elem_of_nil in Hc. }
  rewrite <- Hgs. clear Hgs g0 gs0.
  pose proof (runGroups_spec e layer originalResponse overrideResponse
                (groupByPriority guardrails) sched
                (sortedPriorities (groupByPriority guardrails))
                (sortedPriorities_sorted _)) as Hspec.
  specialize (Hspec (fun p g _ Hg => proj2 (group_priority guardrails p g Hg))
                [] content (freshDeadline w)).
  cbv zeta in Hspec.
  destruct (runGroups e layer originalResponse overrideResponse
              (groupByPriority guardrails) sched
              (sortedPriorities (groupByPriority guardrails)) [] content
              (freshDeadline w))
    as [[res err] w'].
  simpl in *.
  destruct Hspec as (-> & calls & newR & Hw & Hres & _ & Hcontent & Hsort & Hfail
                     & Hr1 & Hr2 & Hpass).
  subst newR. split; [done |]. exists calls. split_and!; try done.
  eapply Forall_impl; [exact Hcontent |]. simpl. intros c Hc.
  by rewrite group_is_filter in Hc.
Qed.


(* executeParallel returns no error *)
Lemma executeParallel_no_error (e : Executor) (content : bytes)
    (guardrails : list Guardrail) (layer : string)
    (originalResponse overrideResponse : option bytes)
    (sched : Z -> list Event) (w : World) :
  (executeParallel e content guardrails layer originalResponse overrideResponse
     sched w).1.2 = None.
Proof.
  by destruct (executeParallel_spec e content guardrails layer
                 originalResponse overrideResponse sched w) as (_ & _ & ? & _).
Qed.


(* a task that completed did not find the context done, a task skipped
   did: the status a starting task takes *)
Lemma skipped_iff_context_done (i : nat) (st : GroupState) :
  gs_status st !! i = Some NotStarted ->
  gs_status (taskStart i st) !! i
  = Some (if bool_decide (is_Some (gs_ctxErr st))
          then Skipped else InFlight (w_clock (gs_world st))).
Proof.
  intros Hs. destruct (taskStart_spec i st) as (_ & _ & _ & ->).
  apply list_lookup_insert_eq. by apply lookup_lt_Some in Hs.
Qed.


End ExecutorClaims.



(* --------------------------------------------------------------------- *)
(* the proxy handler and the executor                                    *)
(* --------------------------------------------------------------------- *)

Section ExecutorFaults.
Import Io Http Guardrails Providers Handlers.
Variable json_Marshal : Json.value -> bytes.
Variable gunzip : bytes -> option bytes.


End ExecutorFaults.



(* --------------------------------------------------------------------- *)
(* sample requests through the handler                                   *)
(* --------------------------------------------------------------------- *)

(** C3, as stated, fails: the chat endpoint is registered for a provider
    whose configuration advertises POST alone, and a GET request arrives.
    GET is not among the advertised methods, yet the request is handed to
    the provider and the client receives the upstream's 200, not 405. *)
Lemma unadvertised_method_is_forwarded :
  let r := Examples.request "GET" None in
  let out := Handlers.ServeHTTP Examples.kindOf Examples.noGunzip
               Examples.chatHandler Examples.env0 Examples.inOrder
               Http.newWriter r Examples.sys0 in
  Handlers.routes Examples.chatHandler !! Http.URLPath r = Some "openai"
  /\ Providers.advertisedMethods Examples.chatConfig (Http.URLPath r) = ["POST"]
  /\ (Http.Method r ∉ Providers.advertisedMethods Examples.chatConfig
                       (Http.URLPath r))
  /\ Http.status out.1 = Some 200
  /\ Http.status out.1 <> Some 405
  /\ Handlers.sys_upstream out.2 = [r].
Proof.
  vm_compute. split_and!; try done.
  intros H. apply elem_of_cons in H as [H | H]; [discriminate |].
  by apply elem_of_nil in H.
Qed.

(* a TRACE request to the registered endpoint is answered 405 *)
Lemma method_outside_fixed_list_rejected_witness :
  let r := Examples.request "TRACE" None in
  let out := Handlers.ServeHTTP Examples.kindOf Examples.noGunzip
               Examples.chatHandler Examples.env0 Examples.inOrder
               Http.newWriter r Examples.sys0 in
  Handlers.routes Examples.chatHandler !! Http.URLPath r = Some "openai"
  /\ (Strings.ToUpper (Http.Method r) ∉ Handlers.allowedMethods)
  /\ Http.status out.1 = Some 405
  /\ out.2 = Examples.sys0.
Proof.
  intros r out.
  assert (Hr : Handlers.routes Examples.chatHandler !! Http.URLPath r
               = Some "openai") by (vm_compute; reflexivity).
  assert (Hp : Handlers.providers Examples.chatHandler !! "openai"
               = Some (Providers.New Examples.chatConfig Examples.upstreamOK))
    by (vm_compute; reflexivity).
  assert (Hm : Strings.ToUpper (Http.Method r) ∉ Handlers.allowedMethods).
  { vm_compute. intros H.
    repeat (apply elem_of_cons in H as [H | H]; [discriminate |]).
    by apply elem_of_nil in H. }
  destruct (method_outside_fixed_list_rejected Examples.kindOf Examples.noGunzip
              Examples.chatHandler Examples.env0 Examples.inOrder Http.newWriter
              r Examples.sys0 "openai" _ Hr Hp Hm eq_refl) as [Hs Hu].
  exact (conj Hr (conj Hm (conj Hs Hu))).
Defined.


(** C1: the body forwarded upstream is claimed to be the full original
    body also when it is larger than the capture cap. A POST of the eight
    bytes "abcdefgh" goes through Capture, with a cap of four bytes, into the
    proxy handler: the request handed to the provider carries "abcd" followed
    by the truncation marker, which is also what is logged; the original body
    does not reach the upstream. *)
Theorem capture_forwards_truncated_body :
  let body := b "abcdefgh" in
  let out := Middleware.Capture Examples.noGunzip Examples.capture4
               Examples.captureEnv0
               (Handlers.ServeHTTP Examples.kindOf Examples.noGunzip
                  Examples.chatHandler Examples.env0 Examples.inOrder)
               Http.newWriter (Examples.request "POST" (Some body))
               Examples.sys0 in
  Middleware.maxBodySize Examples.capture4 < Z.of_nat (length body)
  /\ Http.r_Body <$> Handlers.sys_upstream out.1.2
     = [Some (Io.NewReader (b "abcd" ++ Middleware.truncationMarker))]
  /\ b "abcd" ++ Middleware.truncationMarker <> body
  /\ Storage.RequestBody <$> out.2
     = Some (Some (b "abcd" ++ Middleware.truncationMarker))
  /\ Http.status out.1.1 = Some 200.
Proof. vm_compute. split_and!; try done. Qed.
